(** * Performance metrics of a return series ([performance.py])

    A shallow embedding of the four functions of [performance.py]
    ([CAGR], [annualVolatility], [sharpeRatio], [maxDrawdown]) together with
    the pandas [Series] methods and the Python built-ins they call.

    The Python code is written against whatever numbers the series holds.
    The embedding keeps that: every function is written once, over an
    interface [Number] of the numeric operations the code reaches, and is
    then read at two instances:

    - [Binary64.number]: IEEE-754 double precision (the kernel's primitive
      floats), which is what a pandas [float64] series holds; the C
      library's [pow] and numpy's summation are parameters of the
      instance;
    - [Exact.exact]: the real numbers extended by one undefined value,
      that is arithmetic without rounding or overflow, in which an
      operation outside its domain yields the undefined value (which
      plays the role of NaN).

    A Python exception is explicit: a function that can raise returns a
    [result].

    The file has the model first; then the quantities the specification
    names, written from its formulas; then what holds for every number
    type and what holds on doubles (the order of the doubles, NaN,
    overflow, the maximum drawdown, the volatility), with the worked
    example of the specification also in exact arithmetic; and last the
    functions run on concrete series. *)

From Stdlib Require Import ZArith List Bool Lia.
From Stdlib Require Import Reals Lra Psatz.
From Stdlib Require Import Floats.
Import ListNotations.

Set Implicit Arguments.

(** ** Python outcomes *)

(** The only exception the four functions can raise on a numeric series:
    dividing a Python [int] by the [int] zero. *)
Inductive exn : Type :=
| ZeroDivisionError.

Inductive result (A : Type) : Type :=
| Ok (a : A)
| Raise (e : exn).

Arguments Ok {A} a.
Arguments Raise {A} e.

Definition bind {A B : Type} (m : result A) (k : A -> result B) : result B :=
  match m with
  | Ok a => k a
  | Raise e => Raise e
  end.

Notation "x <- m ;; k" := (bind m (fun x => k))
  (at level 61, m at next level, right associativity).

(** ** The numeric interface *)

(** The operations of a [numpy.float64] that the code reaches, directly or
    through pandas.  [of_int] is the conversion of a Python [int] to a
    float, [half] the literal [0.5], [nan] the value pandas returns for an
    undefined statistic, [sum] numpy's [add.reduce] over an array: the sum
    of the entries in numpy's own order of additions (one after the other
    for fewer than 8 entries, pairwise in blocks from there on). *)
Class Number (F : Type) : Type := {
  zero : F;
  one : F;
  half : F;
  nan : F;
  add : F -> F -> F;
  sub : F -> F -> F;
  mul : F -> F -> F;
  div : F -> F -> F;
  pow : F -> F -> F;
  sqrt : F -> F;
  sum : list F -> F;
  eqb : F -> F -> bool;
  ltb : F -> F -> bool;
  leb : F -> F -> bool;
  is_nan : F -> bool;
  of_int : Z -> F
}.

(** ** Python built-ins *)

Section Builtins.
Context {F : Type} {N : Number F}.

(** [len(s)] *)
Definition len {A : Type} (s : list A) : Z := Z.of_nat (length s).

(** [a / b] on two Python [int]s: true division, which raises when the
    divisor is zero and otherwise gives the float nearest to the quotient.
    For operands that convert to floats without rounding (below [2^53] in
    magnitude, as a number of periods and a length are) that float is the
    quotient of the two converted operands, which is what is written
    here. *)
Definition int_truediv (a b : Z) : result F :=
  if (b =? 0)%Z then Raise ZeroDivisionError
  else Ok (div (of_int a) (of_int b)).

(** [functools.reduce(f, xs, init)] *)
Definition reduce {A B : Type} (f : A -> B -> A) (xs : list B) (init : A) : A :=
  fold_left f xs init.

(** [numpy.maximum] on two numbers neither of which is NaN. *)
Definition maximum (a b : F) : F := if leb b a then a else b.
End Builtins.

(** ** pandas [Series] methods

    A series is the list of its values in index order.  Every reduction and
    accumulation below is called with pandas' default [skipna=True]: NaN
    entries take no part in it. *)

Section Series.
Context {F : Type} {N : Number F}.

Definition notna (x : F) : bool := negb (is_nan x).

(** [s.add(c)] and the element-wise [c - s], [s / t] *)
Definition Series_add (s : list F) (c : F) : list F :=
  map (fun x => add x c) s.

Definition Series_rsub (c : F) (s : list F) : list F :=
  map (fun x => sub c x) s.

Definition Series_div (s t : list F) : list F :=
  map (fun p => div (fst p) (snd p)) (combine s t).

(** [s.product()]: the non-NaN entries, left to right, from the identity. *)
Definition Series_product (s : list F) : F :=
  fold_left mul (filter notna s) one.

(** [s.cumprod()] and [s.cummax()]: a NaN entry stays NaN and leaves the
    running value as it was; [acc] is the running value, [None] until the
    first non-NaN entry. *)
Fixpoint accumulate (f : F -> F -> F) (acc : option F) (s : list F) : list F :=
  match s with
  | [] => []
  | x :: s' =>
      if is_nan x then x :: accumulate f acc s'
      else
        let a := match acc with
                 | None => x
                 | Some a0 => f a0 x
                 end in
        a :: accumulate f (Some a) s'
  end.

Definition Series_cumprod (s : list F) : list F := accumulate mul None s.

Definition Series_cummax (s : list F) : list F := accumulate maximum None s.

(** [s.max()]: the largest non-NaN entry, NaN when there is none. *)
Definition Series_max (s : list F) : F :=
  match filter notna s with
  | [] => nan
  | x :: xs => fold_left maximum xs x
  end.

(** [s.std()]: the default [ddof=1], as pandas' [nanops.nanvar] computes
    it.  With [count] entries that are not NaN the result is NaN when
    [count - 1 <= 0].  Otherwise the NaN entries are set to 0 and the
    series is summed and divided by [count] for the mean; the squared
    differences [(avg - x) ** 2], set to 0 where the entry was NaN, are
    summed and divided by [count - 1]; the result is the square root of
    that. *)
Definition Series_std (s : list F) : F :=
  let count := len (filter notna s) in
  let d := (count - 1)%Z in
  if (d <=? 0)%Z then nan
  else
    let values := map (fun x => if is_nan x then zero else x) s in
    let avg := div (sum values) (of_int count) in
    let sqr :=
      map (fun x => if is_nan x then zero
                    else mul (sub avg x) (sub avg x)) s in
    sqrt (div (sum sqr) (of_int d)).

(** [s[s > 0]]: the entries selected by the boolean mask [s > 0]. *)
Definition Series_gt0 (s : list F) : list F := filter (fun x => ltb zero x) s.
End Series.

(** ** performance.py *)

Section Performance.
Context {F : Type} {N : Number F}.

(** The default of the [periods] argument. *)
Definition default_periods : Z := 252.

(** [returns.add(1.0).product()**(periods / len(returns)) - 1.0] *)
Definition CAGR (returns : list F) (periods : Z) : result F :=
  let growth := Series_product (Series_add returns one) in
  e <- int_truediv periods (len returns) ;;
  Ok (sub (pow growth e) one).

(** [returns.std() * (periods ** 0.5)].  ([periods] is a number of periods
    per year; for a negative [int] Python's [**] would leave the floats for
    the complex numbers, which is outside the model.) *)
Definition annualVolatility (returns : list F) (periods : Z) : F :=
  mul (Series_std returns) (pow (of_int periods) half).

(** [(CAGR(returns, periods) - rfr) / annualVolatility(returns, periods)]:
    a division of two [numpy.float64], which does not raise. *)
Definition sharpeRatio (returns : list F) (periods : Z) (rfr : F) : result F :=
  c <- CAGR returns periods ;;
  Ok (div (sub c rfr) (annualVolatility returns periods)).

(** The local [value] and [ddSeries] of [maxDrawdown]. *)
Definition value (returns : list F) : list F :=
  Series_cumprod (Series_add returns one).

Definition ddSeries (returns : list F) : list F :=
  let value := value returns in
  Series_rsub one (Series_div value (Series_cummax value)).

(** The local function [durReduce]: [res] is the pair (current drawdown
    duration, longest so far). *)
Definition durReduce (res : Z * Z) (curr : F) : Z * Z :=
  let currDrawdownDur := if eqb curr zero then 0%Z else (fst res + 1)%Z in
  (currDrawdownDur, Z.max currDrawdownDur (snd res)).

Definition maxDrawdown (returns : list F) : result (F * F * Z) :=
  let ddSeries := ddSeries returns in
  let dd := Series_max ddSeries in
  ddProportion <- int_truediv (len (Series_gt0 ddSeries)) (len ddSeries) ;;
  let dur := reduce durReduce ddSeries (0%Z, 0%Z) in
  Ok (dd, ddProportion, snd dur).
End Performance.

(** ** Instance: IEEE-754 binary64 *)

Module Binary64.
(** [float(k)] for a Python [int]: the nearest double, ties to even.  (An
    [int] of magnitude [2^1024] or more, which Python refuses to convert,
    is outside the model.) *)
Definition float_of_int (k : Z) : float :=
  SF2Prim (binary_normalize prec emax k 0 false).

Section WithPow.
(** The C library's [pow], which numpy calls for [**]; the kernel's
    floats have no such primitive. *)
Variable libm_pow : float -> float -> float.

(** numpy's summation of an array of doubles, [add.reduce]: the order in
    which it adds the entries is numpy's own. *)
Variable np_sum : list float -> float.

Definition number : Number float := {|
  zero := 0%float;
  one := 1%float;
  half := 0.5%float;
  nan := PrimFloat.nan;
  add := PrimFloat.add;
  sub := PrimFloat.sub;
  mul := PrimFloat.mul;
  div := PrimFloat.div;
  pow := libm_pow;
  sqrt := PrimFloat.sqrt;
  sum := np_sum;
  eqb := PrimFloat.eqb;
  ltb := PrimFloat.ltb;
  leb := PrimFloat.leb;
  is_nan := PrimFloat.is_nan;
  of_int := float_of_int
|}.
End WithPow.

(** A closed function to put in the place of [libm_pow] when an example
    is run: nothing proved below depends on which function it is. *)
Definition sample_pow (x y : float) : float :=
  if PrimFloat.eqb y 0.5 then PrimFloat.sqrt x
  else if PrimFloat.eqb y 1 then x
  else PrimFloat.nan.

(** A closed function to put in the place of [np_sum]: the entries added
    one after the other from [0.0], which is the loop numpy runs on fewer
    than 8 entries. *)
Definition sample_sum (xs : list float) : float :=
  fold_left PrimFloat.add xs 0%float.

(** The values that IEEE-754 sets apart from the finite numbers. *)
Definition is_special (x : float) : bool :=
  PrimFloat.is_nan x || PrimFloat.is_infinity x.

(** A finite double other than the two zeros. *)
Definition is_regular (x : float) : bool :=
  PrimFloat.is_finite x && negb (PrimFloat.is_zero x).

(** A path that never falls: each double is [<=] the next. *)
Fixpoint rising_from (a : float) (vs : list float) : bool :=
  match vs with
  | [] => true
  | b :: tl => PrimFloat.leb a b && rising_from b tl
  end.

Definition rising (vs : list float) : bool :=
  match vs with
  | [] => true
  | a :: tl => rising_from a tl
  end.

(** A zero of either sign, or NaN: what a product can be once a factor
    zero has entered it. *)
Definition zero_or_nan (x : spec_float) : bool :=
  match x with
  | S754_zero _ | S754_nan => true
  | _ => false
  end.

(** A zero of either sign or a finite non-zero number. *)
Definition zero_or_finite (x : spec_float) : bool :=
  match x with
  | S754_zero _ | S754_finite _ _ _ => true
  | _ => false
  end.

(** The instance examples are run at. *)
Definition doubles : Number float := number sample_pow sample_sum.

(** The doubles nearest to [0.10], [-0.20] and [0.05]. *)
Definition example : list float :=
  [0x1.999999999999ap-4; -0x1.999999999999ap-3; 0x1.999999999999ap-5]%float.
End Binary64.

(** ** Instance: exact arithmetic

    The real numbers with one more value, [Undefined], which an operation
    returns outside its domain (a division by zero, the square root of a
    negative number) and which the operations propagate, as they do NaN. *)

Module Exact.
Inductive number : Type :=
| Real (r : R)
| Undefined.

Definition lift2 (f : R -> R -> R) (x y : number) : number :=
  match x, y with
  | Real a, Real b => Real (f a b)
  | _, _ => Undefined
  end.

Definition ediv (x y : number) : number :=
  match x, y with
  | Real a, Real b => if Req_dec_T b 0 then Undefined else Real (a / b)
  | _, _ => Undefined
  end.

Definition esqrt (x : number) : number :=
  match x with
  | Real a => if Rlt_dec a 0 then Undefined else Real (R_sqrt.sqrt a)
  | Undefined => Undefined
  end.

(** [x ** y] where it is a real number: a positive base with any exponent,
    zero with a non-negative exponent, a negative base with an integer
    exponent.  As for IEEE-754's [pow], anything to the power 0 is 1 and 1
    to any power is 1, an undefined operand included. *)
Definition epow (x y : number) : number :=
  match x, y with
  | Real a, Real b =>
      if Rlt_dec 0 a then Real (Rpower a b)
      else if Req_dec_T a 0 then
        if Rlt_dec 0 b then Real 0
        else if Req_dec_T b 0 then Real 1
        else Undefined
      else if Req_dec_T b (IZR (Int_part b)) then Real (powerRZ a (Int_part b))
      else Undefined
  | Undefined, Real b => if Req_dec_T b 0 then Real 1 else Undefined
  | Real a, Undefined => if Req_dec_T a 1 then Real 1 else Undefined
  | Undefined, Undefined => Undefined
  end.

Definition test2 (P : R -> R -> Prop) (dec : forall a b, {P a b} + {~ P a b})
    (x y : number) : bool :=
  match x, y with
  | Real a, Real b => if dec a b then true else false
  | _, _ => false
  end.

Definition e_is_nan (x : number) : bool :=
  match x with
  | Real _ => false
  | Undefined => true
  end.

#[export] Instance exact : Number number := {|
  zero := Real 0;
  one := Real 1;
  half := Real (/ 2);
  nan := Undefined;
  add := lift2 Rplus;
  sub := lift2 Rminus;
  mul := lift2 Rmult;
  div := ediv;
  pow := epow;
  sqrt := esqrt;
  sum := fun xs => fold_left (lift2 Rplus) xs (Real 0);
  eqb := test2 (@eq R) Req_dec_T;
  ltb := test2 Rlt Rlt_dec;
  leb := test2 Rle Rle_dec;
  is_nan := e_is_nan;
  of_int := fun k => Real (IZR k)
|}.

(** A series of real numbers as a series of [number]s. *)
Definition series (rs : list R) : list number := map Real rs.
End Exact.

(** ** The quantities the specification names

    Written from the specification's formulas, index by index, to be
    compared with what the code computes. *)

Section Specification.
Context {F : Type} {N : Number F}.

(** [1 + r_i], as [returns.add(1.0)] forms it. *)
Definition factor (returns : list F) (i : nat) : F :=
  add (nth i returns zero) one.

(** The product of all the [1 + r_i], in order. *)
Definition growth (returns : list F) : F :=
  fold_left (fun acc r => mul acc (add r one)) returns one.

(** [value_i]: the product of the [1 + r_j] for [j <= i]. *)
Fixpoint value_at (returns : list F) (i : nat) : F :=
  match i with
  | O => factor returns 0
  | S j => mul (value_at returns j) (factor returns i)
  end.

(** [peak_i]: the largest of [value_0 .. value_i]. *)
Fixpoint peak_at (returns : list F) (i : nat) : F :=
  match i with
  | O => value_at returns 0
  | S j => maximum (peak_at returns j) (value_at returns i)
  end.

(** [dd_i = 1 - value_i / peak_i] *)
Definition dd_at (returns : list F) (i : nat) : F :=
  sub one (div (value_at returns i) (peak_at returns i)).

(** The largest of [f 0 .. f m]. *)
Fixpoint max_upto (f : nat -> F) (m : nat) : F :=
  match m with
  | O => f 0%nat
  | S j => maximum (max_upto f j) (f m)
  end.

(** The number of indices [i < n] with [0 < f i]. *)
Fixpoint count_positive (f : nat -> F) (n : nat) : Z :=
  match n with
  | O => 0
  | S j => (count_positive f j + if ltb zero (f j) then 1 else 0)%Z
  end.

(** No NaN among the first [n] factors, values and drawdowns. *)
Definition defined_upto (returns : list F) (n : nat) : bool :=
  forallb (fun i => notna (factor returns i) && notna (value_at returns i)
                    && notna (dd_at returns i)) (seq 0 n).

(** The running count of the duration fold after entry [i] of the
    drawdown series [dds]: back to 0 where the entry equals 0, one more
    than the count before otherwise, from a count of 0 before entry 0. *)
Fixpoint count_at (dds : list F) (i : nat) : Z :=
  match i with
  | O => if eqb (nth 0 dds zero) zero then 0 else 0 + 1
  | S j => if eqb (nth i dds zero) zero then 0 else count_at dds j + 1
  end%Z.

(** The running count before entry [k]. *)
Definition count_before (dds : list F) (k : nat) : Z :=
  match k with
  | O => 0%Z
  | S j => count_at dds j
  end.

(** The largest value the running count takes over the first [n]
    entries, the starting count 0 included. *)
Fixpoint max_count (dds : list F) (n : nat) : Z :=
  match n with
  | O => 0
  | S j => Z.max (max_count dds j) (count_at dds j)
  end%Z.

(** The length of the run of entries not [== 0] that [dds] starts with,
    and the length of its longest run of consecutive entries not [== 0]:
    the longest drawdown, written without the fold. *)
Fixpoint leading_run (dds : list F) : Z :=
  match dds with
  | [] => 0
  | d :: dds' => if eqb d zero then 0 else 1 + leading_run dds'
  end%Z.

Fixpoint longest_run (dds : list F) : Z :=
  match dds with
  | [] => 0
  | d :: dds' => Z.max (leading_run (d :: dds')) (longest_run dds')
  end%Z.

(** The entries of a drawdown series that are not [== 0]. *)
Definition not_zero (dds : list F) : list F :=
  filter (fun d => negb (eqb d zero)) dds.

(** [x] is a greatest entry of [xs]: it is one of the entries, and every
    entry is [<=] it. *)
Definition greatest_of (xs : list F) (x : F) : Prop :=
  In x xs /\ Forall (fun y => leb y x = true) xs.

(** [value_0 .. value_i] *)
Definition values_upto (returns : list F) (i : nat) : list F :=
  map (value_at returns) (seq 0 (S i)).

(** [d] is the drawdown at index [i]: [1 - value_i / peak_i] for a
    greatest [peak_i] of [value_0 .. value_i]. *)
Definition drawdown_at (returns : list F) (i : nat) (d : F) : Prop :=
  exists peak,
    greatest_of (values_upto returns i) peak
    /\ d = sub one (div (value_at returns i) peak).

(** The mean of a series, and its sample standard deviation: the square
    root of the sum of the squared deviations from the mean over
    [n - 1]. *)
Definition mean (rs : list F) : F := div (sum rs) (of_int (len rs)).

Definition sample_std (rs : list F) : F :=
  let m := mean rs in
  sqrt (div (sum (map (fun r => mul (sub r m) (sub r m)) rs))
            (of_int (len rs - 1))).
End Specification.

(** The drawdowns of a path of growth factors [xs] that continues from the
    cumulative value [v] and the running peak [p], and those of a whole
    path, in plain real arithmetic. *)
Fixpoint drawdowns_from (v p : R) (xs : list R) : list R :=
  match xs with
  | [] => []
  | x :: xs' =>
      let v' := (v * x)%R in
      let p' := Rmax p v' in
      (1 - v' / p')%R :: drawdowns_from v' p' xs'
  end.

Definition drawdowns (xs : list R) : list R :=
  match xs with
  | [] => []
  | x :: xs' => (1 - x / x)%R :: drawdowns_from x x xs'
  end.

(** The place of a double that is not NaN in the order of the doubles:
    its sign class, then exponent and mantissa, both reversed below zero.
    The two zeros share a place.  [before] is the order of the places. *)
Definition place (x : spec_float) : Z * Z * Z :=
  match x with
  | S754_zero _ => (0, 0, 0)
  | S754_infinity false => (2, 0, 0)
  | S754_infinity true => (-2, 0, 0)
  | S754_nan => (0, 0, 0)
  | S754_finite false m e => (1, e, Zpos m)
  | S754_finite true m e => (-1, - e, - Zpos m)
  end%Z.

Definition before (p q : Z * Z * Z) : Prop :=
  (fst (fst p) < fst (fst q)
   \/ (fst (fst p) = fst (fst q)
       /\ (snd (fst p) < snd (fst q)
           \/ (snd (fst p) = snd (fst q) /\ snd p < snd q))))%Z.

(** * Properties that hold for every number type *)

Section Generic.
Context {F : Type} {N : Number F}.

Lemma len_nonzero (A : Type) (s : list A) : s <> [] -> (len s =? 0)%Z = false.
Proof.
  intros H. unfold len. destruct s as [|a s]; [congruence|].
  apply Z.eqb_neq. simpl length. lia.
Qed.

Lemma accumulate_length (f : F -> F -> F) (s : list F) :
  forall acc, length (accumulate f acc s) = length s.
Proof.
  induction s as [|x s IH]; intros acc; simpl; [reflexivity|].
  destruct (is_nan x); simpl; now rewrite IH.
Qed.

Lemma value_length (returns : list F) : length (value returns) = length returns.
Proof.
  unfold value, Series_cumprod, Series_add.
  now rewrite accumulate_length, length_map.
Qed.

Lemma ddSeries_length (returns : list F) :
  length (ddSeries returns) = length returns.
Proof.
  unfold ddSeries, Series_rsub, Series_div, Series_cummax.
  rewrite !length_map, length_combine, accumulate_length, value_length.
  apply Nat.min_id.
Qed.

Lemma ddSeries_nonempty (returns : list F) :
  returns <> [] -> ddSeries returns <> [].
Proof.
  intros H E. apply (f_equal (@length F)) in E.
  rewrite ddSeries_length in E. destruct returns; [congruence | discriminate].
Qed.

(** [maxDrawdown] returns on every non-empty series, with these three
    components. *)
Lemma maxDrawdown_nonempty (returns : list F) :
  returns <> [] ->
  maxDrawdown returns =
    Ok (Series_max (ddSeries returns),
        div (of_int (len (Series_gt0 (ddSeries returns))))
            (of_int (len (ddSeries returns))),
        snd (reduce durReduce (ddSeries returns) (0%Z, 0%Z))).
Proof.
  intros H. unfold maxDrawdown, int_truediv.
  rewrite (len_nonzero (ddSeries_nonempty H)). reflexivity.
Qed.

(** *** The duration fold *)

Lemma firstn_snoc (A : Type) (d : A) (s : list A) (k : nat) :
  (k < length s)%nat -> firstn (S k) s = firstn k s ++ [nth k s d].
Proof.
  revert k. induction s as [|a s IH]; intros k Hk; simpl in Hk; [lia|].
  destruct k as [|k]; [reflexivity|].
  change (firstn (S (S k)) (a :: s)) with (a :: firstn (S k) s).
  rewrite (IH k) by lia. reflexivity.
Qed.

Lemma durReduce_prefix (dds : list F) (k : nat) :
  (k <= length dds)%nat ->
  reduce durReduce (firstn k dds) (0%Z, 0%Z)
  = (count_before dds k, max_count dds k).
Proof.
  unfold reduce. induction k as [|k IH]; intros Hk; [reflexivity|].
  rewrite (firstn_snoc zero) by lia.
  rewrite fold_left_app, IH by lia. simpl fold_left.
  unfold durReduce. cbn [fst snd count_before max_count].
  f_equal.
  - destruct k; reflexivity.
  - rewrite Z.max_comm. f_equal. destruct k; reflexivity.
Qed.

Lemma durReduce_whole (dds : list F) :
  snd (reduce durReduce dds (0%Z, 0%Z)) = max_count dds (length dds).
Proof.
  rewrite <- (firstn_all dds) at 1.
  rewrite durReduce_prefix by lia. reflexivity.
Qed.
(** *** Accumulations, index by index *)

Lemma accumulate_from (f : F -> F -> F) (d : F) (s : list F) :
  forall (a : F) (h : nat -> F),
    Forall (fun x => is_nan x = false) s ->
    h 0%nat = a ->
    (forall j, (j < length s)%nat -> h (S j) = f (h j) (nth j s d)) ->
    accumulate f (Some a) s = map h (seq 1 (length s)).
Proof.
  induction s as [|x s IH]; intros a h Hs H0 Hstep; [reflexivity|].
  inversion Hs as [|? ? Hx Hs']; subst.
  simpl accumulate. rewrite Hx.
  assert (H1 : h 1%nat = f (h 0%nat) x) by (apply (Hstep 0%nat); simpl; lia).
  rewrite (IH (f (h 0%nat) x) (fun j => h (S j))); auto.
  - simpl length. simpl seq. simpl map. rewrite H1. f_equal.
    rewrite <- (seq_shift (length s) 1), map_map. reflexivity.
  - intros j Hj. apply (Hstep (S j)). simpl. lia.
Qed.

Lemma accumulate_index (f : F -> F -> F) (d : F) (s : list F) (g : nat -> F) :
  Forall (fun x => is_nan x = false) s ->
  ((0 < length s)%nat -> g 0%nat = nth 0 s d) ->
  (forall j, (S j < length s)%nat -> g (S j) = f (g j) (nth (S j) s d)) ->
  accumulate f None s = map g (seq 0 (length s)).
Proof.
  destruct s as [|x s]; intros Hs H0 Hstep; [reflexivity|].
  inversion Hs as [|? ? Hx Hs']; subst.
  simpl accumulate. rewrite Hx.
  assert (H0' : g 0%nat = x) by (apply H0; simpl; lia).
  rewrite (accumulate_from f d (a := x) g); auto.
  - simpl. now rewrite H0'.
  - intros j Hj. apply Hstep. simpl. lia.
Qed.

Lemma Forall_map_seq (P : F -> Prop) (g : nat -> F) (n : nat) :
  (forall i, (i < n)%nat -> P (g i)) -> Forall P (map g (seq 0 n)).
Proof.
  intros H. apply Forall_forall. intros x Hx.
  apply in_map_iff in Hx. destruct Hx as [i [<- Hi]].
  apply in_seq in Hi. apply H. lia.
Qed.

Lemma nth_map_seq (g : nat -> F) (d : F) (n i : nat) :
  (i < n)%nat -> nth i (map g (seq 0 n)) d = g i.
Proof.
  intros Hi. rewrite (nth_indep _ d (g 0%nat)) by now rewrite length_map, length_seq.
  rewrite (map_nth g), seq_nth by assumption. reflexivity.
Qed.

Lemma combine_map_seq (A B : Type) (a : nat -> A) (b : nat -> B) (l : list nat) :
  combine (map a l) (map b l) = map (fun i => (a i, b i)) l.
Proof. induction l as [|i l IH]; simpl; [reflexivity | now rewrite IH]. Qed.

Lemma filter_all (A : Type) (p : A -> bool) (l : list A) :
  Forall (fun x => p x = true) l -> filter p l = l.
Proof.
  induction 1 as [|x l Hx _ IH]; simpl; [reflexivity|].
  now rewrite Hx, IH.
Qed.

Lemma max_upto_fold (f : nat -> F) (m : nat) :
  forall k, fold_left maximum (map f (seq (S k) m)) (max_upto f k)
            = max_upto f (k + m).
Proof.
  induction m as [|m IH]; intros k; simpl.
  - now rewrite Nat.add_0_r.
  - change (maximum (max_upto f k) (f (S k))) with (max_upto f (S k)).
    rewrite IH. f_equal. lia.
Qed.

Lemma count_positive_filter (f : nat -> F) (n : nat) :
  len (filter (fun x => ltb zero x) (map f (seq 0 n))) = count_positive f n.
Proof.
  unfold len. induction n as [|n IH]; [reflexivity|].
  rewrite seq_S, map_app, filter_app, length_app, Nat2Z.inj_add, IH.
  simpl. destruct (ltb zero (f n)); reflexivity.
Qed.

(** *** The series of [maxDrawdown], index by index *)

Section Defined.
Variable returns : list F.
Hypothesis Hdef : defined_upto returns (length returns) = true.

Lemma defined_at (i : nat) :
  (i < length returns)%nat ->
  is_nan (factor returns i) = false
  /\ is_nan (value_at returns i) = false
  /\ is_nan (dd_at returns i) = false.
Proof.
  intros Hi. unfold defined_upto in Hdef.
  rewrite forallb_forall in Hdef.
  specialize (Hdef i). rewrite in_seq in Hdef.
  assert (H : (0 <= i < 0 + length returns)%nat) by lia.
  apply Hdef in H. unfold notna in H.
  apply andb_prop in H. destruct H as [H H3].
  apply andb_prop in H. destruct H as [H1 H2].
  rewrite negb_true_iff in H1, H2, H3. auto.
Qed.

Lemma Series_add_index :
  Series_add returns one = map (factor returns) (seq 0 (length returns)).
Proof.
  unfold Series_add. apply (nth_ext _ _ (add zero one) (add zero one)).
  - now rewrite !length_map, length_seq.
  - intros i Hi. rewrite length_map in Hi. rewrite nth_map_seq by assumption.
    apply (map_nth (fun x => add x one)).
Qed.

Lemma value_index :
  value returns = map (value_at returns) (seq 0 (length returns)).
Proof.
  unfold value, Series_cumprod. rewrite Series_add_index.
  rewrite (accumulate_index mul zero (value_at returns));
    rewrite ?length_map, ?length_seq; auto.
  - apply Forall_map_seq. intros i Hi. now apply defined_at.
  - intros H0. rewrite nth_map_seq by assumption. reflexivity.
  - intros j Hj. rewrite nth_map_seq by assumption. reflexivity.
Qed.

Lemma cummax_index :
  Series_cummax (value returns) = map (peak_at returns) (seq 0 (length returns)).
Proof.
  unfold Series_cummax. rewrite value_index.
  rewrite (accumulate_index maximum zero (peak_at returns));
    rewrite ?length_map, ?length_seq; auto.
  - apply Forall_map_seq. intros i Hi. now apply defined_at.
  - intros H0. rewrite nth_map_seq by assumption. reflexivity.
  - intros j Hj. rewrite nth_map_seq by assumption. reflexivity.
Qed.

Lemma ddSeries_index :
  ddSeries returns = map (dd_at returns) (seq 0 (length returns)).
Proof.
  unfold ddSeries. rewrite cummax_index, value_index.
  unfold Series_rsub, Series_div.
  rewrite combine_map_seq, !map_map. reflexivity.
Qed.

Lemma Series_max_index :
  returns <> [] ->
  Series_max (ddSeries returns) = max_upto (dd_at returns) (length returns - 1).
Proof.
  intros Hne. unfold Series_max. rewrite ddSeries_index.
  rewrite filter_all.
  - destruct returns as [|r rs]; [congruence|].
    simpl length. rewrite Nat.sub_succ, Nat.sub_0_r.
    change (seq 0 (S (length rs))) with (0%nat :: seq 1 (length rs)).
    cbn [map]. apply (max_upto_fold (dd_at (r :: rs)) (length rs) 0).
  - apply Forall_map_seq. intros i Hi. unfold notna.
    destruct (defined_at Hi) as [_ [_ ->]]. reflexivity.
Qed.
End Defined.

(** *** Bounds on the duration fold *)



Lemma Series_gt0_none (l : list F) :
  Forall (fun d => ltb zero d = false) l -> Series_gt0 l = [].
Proof.
  unfold Series_gt0. induction 1 as [|d l Hd _ IH]; [reflexivity|].
  cbn [filter]. now rewrite Hd.
Qed.

Lemma Series_max_constant (c : F) (l : list F) :
  is_nan c = false -> maximum c c = c -> l <> [] ->
  Forall (fun d => d = c) l -> Series_max l = c.
Proof.
  intros Hc Hm Hne Hl. unfold Series_max.
  rewrite filter_all.
  - destruct l as [|d l]; [congruence|].
    inversion Hl as [|? ? Hd Hl']; subst. clear Hne Hl.
    induction Hl' as [|d l Hd _ IH]; [reflexivity|].
    subst d. cbn [fold_left]. now rewrite Hm.
  - eapply Forall_impl; [|exact Hl]. cbn. intros a ->.
    unfold notna. now rewrite Hc.
Qed.

Lemma map_const_length (A B : Type) (c : F) (l : list A) :
  forall l' : list B, length l = length l' ->
    map (fun _ => c) l = map (fun _ => c) l'.
Proof.
  induction l as [|x l IH]; intros [|y l'] H; try discriminate; [reflexivity|].
  simpl. f_equal. apply IH. now inversion H.
Qed.

Lemma combine_self (A : Type) (l : list A) :
  combine l l = map (fun x => (x, x)) l.
Proof. induction l as [|x l IH]; simpl; [reflexivity | now rewrite IH]. Qed.

Lemma duration_all_zero (dds : list F) :
  Forall (fun d => eqb d zero = true) dds ->
  reduce durReduce dds (0%Z, 0%Z) = (0%Z, 0%Z).
Proof.
  unfold reduce. induction 1 as [|d dds Hd _ IH]; [reflexivity|].
  cbn [fold_left]. unfold durReduce at 2. rewrite Hd. exact IH.
Qed.
End Generic.

(** * Exact arithmetic, for the worked example *)

Module ExactFacts.
Import Exact.
Local Open Scope R_scope.

Lemma sub_Real (a b : R) : sub (Real a) (Real b) = Real (a - b).
Proof. reflexivity. Qed.

Lemma mul_Real (a b : R) : mul (Real a) (Real b) = Real (a * b).
Proof. reflexivity. Qed.

Lemma div_Real (a b : R) : b <> 0 -> div (Real a) (Real b) = Real (a / b).
Proof. intros Hb. cbn. destruct (Req_dec_T b 0); [contradiction | reflexivity]. Qed.

Lemma eqb_Real (a b : R) : eqb (Real a) (Real b) = true <-> a = b.
Proof. cbn. destruct (Req_dec_T a b); split; auto; discriminate. Qed.

Lemma ltb_Real (a b : R) : ltb (Real a) (Real b) = true <-> a < b.
Proof. cbn. destruct (Rlt_dec a b); split; auto; discriminate. Qed.

Lemma maximum_Real (a b : R) : maximum (Real a) (Real b) = Real (Rmax a b).
Proof.
  unfold maximum, Rmax. cbn.
  destruct (Rle_dec b a), (Rle_dec a b); try reflexivity; f_equal; lra.
Qed.

Lemma of_int_Real (k : Z) : of_int k = Real (IZR k).
Proof. reflexivity. Qed.

Lemma filter_notna_series (rs : list R) : filter notna (series rs) = series rs.
Proof.
  apply filter_all. apply Forall_forall. intros x Hx.
  apply in_map_iff in Hx. now destruct Hx as [r [<- _]].
Qed.

Lemma Series_add_series (rs : list R) :
  Series_add (series rs) one = series (map (fun r => r + 1) rs).
Proof. unfold Series_add, series. rewrite !map_map. reflexivity. Qed.

(** *** The drawdown series of positive growth factors *)

Lemma ddSeries_from (xs : list R) :
  forall v p, 0 < v -> 0 < p -> Forall (fun x => 0 < x) xs ->
    Series_rsub one
      (Series_div (accumulate mul (Some (Real v)) (series xs))
         (accumulate maximum (Some (Real p))
            (accumulate mul (Some (Real v)) (series xs))))
    = series (drawdowns_from v p xs).
Proof.
  induction xs as [|x xs IH]; intros v p Hv Hp Hxs; [reflexivity|].
  inversion Hxs as [|? ? Hx Hxs']; subst.
  assert (Hv' : 0 < v * x) by now apply Rmult_lt_0_compat.
  assert (Hp' : 0 < Rmax p (v * x)).
  { apply Rlt_le_trans with p; [assumption | apply Rmax_l]. }
  cbn [series map accumulate is_nan exact e_is_nan].
  rewrite mul_Real.
  cbn [accumulate is_nan exact e_is_nan].
  rewrite maximum_Real.
  unfold Series_rsub, Series_div in *.
  cbn [combine map fst snd drawdowns_from].
  rewrite div_Real by lra.
  change (@one number exact) with (Real 1) in *. rewrite sub_Real.
  unfold series. cbn [map]. f_equal. apply IH; assumption.
Qed.

Lemma ddSeries_series (rs : list R) :
  Forall (fun r => 0 < 1 + r) rs ->
  ddSeries (series rs) = series (drawdowns (map (fun r => r + 1) rs)).
Proof.
  intros Hrs. unfold ddSeries, value, Series_cumprod, Series_cummax.
  rewrite Series_add_series.
  destruct rs as [|r rs]; [reflexivity|].
  inversion Hrs as [|? ? Hr Hrs']; subst.
  cbn [series map accumulate is_nan exact e_is_nan].
  unfold Series_rsub, Series_div.
  cbn [combine map fst snd drawdowns].
  rewrite div_Real by lra.
  change (@one number exact) with (Real 1). rewrite sub_Real.
  unfold series. cbn [map]. f_equal.
  apply (@ddSeries_from (map (fun r => r + 1) rs)); try lra.
  apply Forall_forall. intros x Hx. apply in_map_iff in Hx.
  destruct Hx as [r0 [<- Hr0]].
  rewrite Forall_forall in Hrs'. specialize (Hrs' r0 Hr0). lra.
Qed.

(** *** Reductions of a series of reals *)

Lemma fold_maximum_series (ds : list R) :
  forall d, fold_left maximum (series ds) (Real d) = Real (fold_left Rmax ds d).
Proof.
  induction ds as [|x ds IH]; intros d; [reflexivity|].
  cbn [series map fold_left]. rewrite maximum_Real. apply IH.
Qed.

Lemma Series_max_series (d : R) (ds : list R) :
  Series_max (series (d :: ds)) = Real (fold_left Rmax ds d).
Proof.
  unfold Series_max. rewrite filter_notna_series.
  cbn [series map]. apply fold_maximum_series.
Qed.
End ExactFacts.

(** * The functions against their specification *)

Section Formulas.
Context {F : Type} {N : Number F}.

Lemma fold_left_factors (returns : list F) :
  forall a, fold_left mul (map (fun r => add r one) returns) a
            = fold_left (fun acc r => mul acc (add r one)) returns a.
Proof. induction returns as [|r rs IH]; intros a; simpl; [reflexivity | apply IH]. Qed.

Lemma Series_product_growth (returns : list F) :
  Forall (fun r => is_nan (add r one) = false) returns ->
  Series_product (Series_add returns one) = growth returns.
Proof.
  intros H. unfold Series_product, Series_add, growth.
  rewrite filter_all; [apply fold_left_factors|].
  apply Forall_forall. intros x Hx. apply in_map_iff in Hx.
  destruct Hx as [r [<- Hr]]. rewrite Forall_forall in H.
  unfold notna. now rewrite (H r Hr).
Qed.

(** C1.  On a non-empty series of numbers (no NaN among the [1 + r_i]),
    [CAGR(returns, periods)] returns, and what it returns is the product of
    all the [1 + r_i], taken in order, raised to the power [periods / n],
    minus 1, where [n] is the length of the series. *)
Theorem CAGR_compounds_and_annualizes (returns : list F) (periods : Z) :
  returns <> [] ->
  Forall (fun r => is_nan (add r one) = false) returns ->
  CAGR returns periods
  = Ok (sub (pow (growth returns)
                 (div (of_int periods) (of_int (len returns))))
            one).
Proof.
  intros Hne Hnum. unfold CAGR, int_truediv.
  rewrite (len_nonzero Hne). cbn [bind].
  now rewrite Series_product_growth.
Qed.

(** C3.  Where [CAGR] is defined, that is on a non-empty series,
    [sharpeRatio(returns, periods, rfr)] returns
    [(CAGR(returns, periods) - rfr) / annualVolatility(returns, periods)]. *)
Theorem sharpeRatio_is_excess_growth_over_volatility
    (returns : list F) (periods : Z) (rfr : F) :
  returns <> [] ->
  exists c,
    CAGR returns periods = Ok c
    /\ sharpeRatio returns periods rfr
       = Ok (div (sub c rfr) (annualVolatility returns periods)).
Proof.
  intros Hne. unfold sharpeRatio, CAGR, int_truediv.
  rewrite (len_nonzero Hne). cbn [bind].
  eexists. split; reflexivity.
Qed.

(** On a non-empty series on which no NaN arises, [maxDrawdown] computes
    its first two components index by index: the running maximum
    [max_upto] of the [dd_at], and the number of indices with
    [dd_at > 0] divided by [n]. *)
Lemma maxDrawdown_by_index (returns : list F) :
  returns <> [] ->
  defined_upto returns (length returns) = true ->
  exists dur,
    maxDrawdown returns
    = Ok (max_upto (dd_at returns) (length returns - 1),
          div (of_int (count_positive (dd_at returns) (length returns)))
              (of_int (len returns)),
          dur).
Proof.
  intros Hne Hdef. rewrite (maxDrawdown_nonempty Hne).
  eexists. f_equal. f_equal. f_equal.
  - now apply Series_max_index.
  - unfold Series_gt0. rewrite ddSeries_index by assumption.
    rewrite count_positive_filter. unfold len.
    now rewrite length_map, length_seq.
Qed.

(** C5.  On a non-empty series the third component of
    [maxDrawdown(returns)] is the largest value reached by the running
    count that goes over the drawdown series from left to right, starts at
    0, goes back to 0 at every entry equal to 0 and is one more than the
    count before at every other entry. *)
Theorem maxDrawdown_duration_is_the_fold (returns : list F) :
  returns <> [] ->
  exists dd ddProportion,
    maxDrawdown returns
    = Ok (dd, ddProportion,
          max_count (ddSeries returns) (length returns)).
Proof.
  intros Hne. rewrite (maxDrawdown_nonempty Hne).
  rewrite durReduce_whole, ddSeries_length.
  eexists. eexists. reflexivity.
Qed.

End Formulas.

(** * The worked example *)

Section ExactArithmetic.
Import Exact ExactFacts.
Local Open Scope R_scope.



Lemma ltb_Real_true (a b : R) : a < b -> ltb (Real a) (Real b) = true.
Proof. apply ltb_Real. Qed.

Lemma ltb_Real_false (a b : R) : ~ a < b -> ltb (Real a) (Real b) = false.
Proof. intros H. destruct (ltb (Real a) (Real b)) eqn:E; [apply ltb_Real in E; contradiction | reflexivity]. Qed.

Lemma eqb_Real_true (a b : R) : a = b -> eqb (Real a) (Real b) = true.
Proof. apply eqb_Real. Qed.

Lemma eqb_Real_false (a b : R) : a <> b -> eqb (Real a) (Real b) = false.
Proof. intros H. destruct (eqb (Real a) (Real b)) eqn:E; [apply eqb_Real in E; contradiction | reflexivity]. Qed.

(** The drawdown series of the example [0.10, -0.20, 0.05]. *)
Lemma example_ddSeries :
  ddSeries (series [0.10; -0.20; 0.05]) = series [0; 0.2; 0.16].
Proof.
  rewrite ddSeries_series by (repeat constructor; lra).
  cbn [map drawdowns drawdowns_from].
  rewrite (Rmax_left (0.10 + 1)) by lra.
  rewrite (Rmax_left (0.10 + 1)) by lra.
  repeat f_equal; lra.
Qed.

(** The same example on doubles, for every [libm_pow]. *)
Lemma example_binary64
    (libm_pow : float -> float -> float) (np_sum : list float -> float) :
  @maxDrawdown float (Binary64.number libm_pow np_sum) Binary64.example
  = Ok (0x1.9999999999998p-3, 0x1.5555555555555p-1, 2%Z)%float.
Proof. vm_compute. reflexivity. Qed.

(** C6.  On the series [0.10, -0.20, 0.05], [maxDrawdown] returns the
    maximum drawdown 0.2, the proportion 2/3 and the duration 2.  On
    doubles, where the three inputs are the doubles nearest to the
    decimals, the maximum drawdown comes out two units in the last place
    below the double nearest to 0.2, the proportion is the double nearest
    to 2/3 and the duration is 2. *)
Theorem maxDrawdown_example :
  maxDrawdown (series [0.10; -0.20; 0.05]) = Ok (Real 0.2, Real (2 / 3), 2%Z)
  /\ forall libm_pow np_sum,
       let dd := 0x1.9999999999998p-3%float in
       @maxDrawdown float (Binary64.number libm_pow np_sum) Binary64.example
       = Ok (dd, PrimFloat.div 2 3, 2%Z)
       /\ PrimFloat.sub 0x1.999999999999ap-3 dd = 0x1p-54%float.
Proof.
  split.
  - assert (Hne : series [0.10; -0.20; 0.05] <> []) by discriminate.
    rewrite (maxDrawdown_nonempty Hne), example_ddSeries.
    rewrite Series_max_series.
    unfold Series_gt0, reduce, len. cbn [series map filter fold_left].
    change (@zero number exact) with (Real 0).
    rewrite (ltb_Real_false (a := 0) (b := 0)) by lra.
    rewrite (ltb_Real_true (a := 0) (b := 0.2)) by lra.
    rewrite (ltb_Real_true (a := 0) (b := 0.16)) by lra.
    unfold durReduce. cbn [fst snd].
    change (@zero number exact) with (Real 0).
    rewrite (eqb_Real_true (a := 0) (b := 0)) by lra.
    rewrite (eqb_Real_false (a := 0.2) (b := 0)) by lra.
    rewrite (eqb_Real_false (a := 0.16) (b := 0)) by lra.
    cbn [fst snd length].
    rewrite !of_int_Real, div_Real by (simpl; lra).
    do 4 f_equal.
    rewrite (Rmax_right 0 0.2), (Rmax_left 0.2 0.16) by lra. reflexivity.
  - intros libm_pow np_sum dd. split.
    + apply example_binary64.
    + vm_compute. reflexivity.
Qed.
End ExactArithmetic.

(** * The functions on doubles *)

Section Doubles.
Local Open Scope float_scope.

(** ** Facts about IEEE-754 division and comparison *)

Lemma eqb_zero_inv (v : float) :
  PrimFloat.eqb v 0 = true -> exists s, Prim2SF v = S754_zero s.
Proof.
  rewrite eqb_spec. change (Prim2SF 0) with (S754_zero false).
  destruct (Prim2SF v) as [s | s | | s m e]; try discriminate.
  - intros _. now exists s.
  - destruct s; discriminate.
  - destruct s; discriminate.
Qed.

Lemma is_nan_of_spec (x : float) :
  Prim2SF x = S754_nan -> PrimFloat.is_nan x = true.
Proof. intros H. unfold PrimFloat.is_nan. now rewrite eqb_spec, H. Qed.

Lemma is_infinity_of_spec (x : float) (s : bool) :
  Prim2SF x = S754_infinity s -> PrimFloat.is_infinity x = true.
Proof.
  intros H. unfold PrimFloat.is_infinity.
  now rewrite eqb_spec, abs_spec, H.
Qed.

(** Dividing a double by a zero of either sign gives NaN or an infinity. *)
Lemma div_by_zero_is_special (x v : float) :
  PrimFloat.eqb v 0 = true -> Binary64.is_special (x / v) = true.
Proof.
  intros Hv. destruct (eqb_zero_inv Hv) as [s Hs].
  pose proof (div_spec x v) as H. rewrite Hs in H.
  unfold Binary64.is_special. apply orb_true_iff.
  destruct (Prim2SF x) as [sx | sx | | sx m e]; cbn in H.
  - left. now apply is_nan_of_spec.
  - right. eapply is_infinity_of_spec; eassumption.
  - left. now apply is_nan_of_spec.
  - right. eapply is_infinity_of_spec; eassumption.
Qed.

Lemma regular_spec (x : float) :
  Binary64.is_regular x = true ->
  exists s m e, Prim2SF x = S754_finite s m e.
Proof.
  unfold Binary64.is_regular, PrimFloat.is_finite. intros H.
  apply andb_prop in H. destruct H as [Hf Hz].
  rewrite negb_true_iff in Hf, Hz. apply orb_false_elim in Hf.
  destruct Hf as [Hn Hi].
  destruct (Prim2SF x) as [s | s | | s m e] eqn:E.
  - unfold PrimFloat.is_zero in Hz. rewrite eqb_spec, E in Hz. discriminate.
  - rewrite (is_infinity_of_spec _ E) in Hi. discriminate.
  - rewrite (is_nan_of_spec _ E) in Hn. discriminate.
  - eauto.
Qed.

Lemma regular_not_nan (x : float) :
  Binary64.is_regular x = true -> PrimFloat.is_nan x = false.
Proof.
  unfold Binary64.is_regular, PrimFloat.is_finite. intros H.
  apply andb_prop in H. destruct H as [Hf _].
  rewrite negb_true_iff in Hf. now apply orb_false_elim in Hf.
Qed.

Lemma SFleb_antisym (s1 s2 : bool) (m1 m2 : positive) (e1 e2 : Z) :
  SFleb (S754_finite s1 m1 e1) (S754_finite s2 m2 e2) = true ->
  SFleb (S754_finite s2 m2 e2) (S754_finite s1 m1 e1) = true ->
  S754_finite s1 m1 e1 = S754_finite s2 m2 e2.
Proof.
  unfold SFleb, SFcompare.
  rewrite (Z.compare_antisym e1 e2).
  rewrite !Pos.compare_cont_spec. cbn [Pos.switch_Eq].
  rewrite (Pos.compare_antisym m1 m2).
  destruct s1, s2; try discriminate;
    destruct (Z.compare_spec e1 e2) as [He|He|He]; cbn; try discriminate;
    destruct (Pos.compare_spec m1 m2) as [Hm|Hm|Hm]; cbn; try discriminate;
    intros _ _; now subst.
Qed.

(** Two regular doubles each [<=] the other are the same double. *)
Lemma leb_antisym (x y : float) :
  Binary64.is_regular x = true -> Binary64.is_regular y = true ->
  PrimFloat.leb x y = true -> PrimFloat.leb y x = true -> x = y.
Proof.
  intros Hx Hy. rewrite !leb_spec.
  destruct (regular_spec _ Hx) as [s1 [m1 [e1 E1]]].
  destruct (regular_spec _ Hy) as [s2 [m2 [e2 E2]]].
  rewrite E1, E2. intros H1 H2. apply Prim2SF_inj.
  rewrite E1, E2. now apply SFleb_antisym.
Qed.

Lemma div_eucl_self_shift (m : positive) (k : Z) :
  (0 <= k)%Z ->
  Z.div_eucl (Z.shiftl (Zpos m) k) (Zpos m) = (2 ^ k, 0)%Z.
Proof.
  intros Hk. rewrite Z.shiftl_mul_pow2 by assumption.
  assert (Hd : (Zpos m * 2 ^ k / Zpos m = 2 ^ k)%Z).
  { rewrite Z.mul_comm. apply Z.div_mul. lia. }
  assert (Hm : ((Zpos m * 2 ^ k) mod Zpos m = 0)%Z).
  { rewrite Z.mul_comm. apply Z.mod_mul. lia. }
  unfold Z.div, Z.modulo in Hd, Hm.
  destruct (Z.div_eucl (Zpos m * 2 ^ k) (Zpos m)) as [q r].
  simpl in *. congruence.
Qed.

Lemma SFdiv_self (s : bool) (m : positive) (e : Z) :
  SF64div (S754_finite s m e) (S754_finite s m e) = Prim2SF 1.
Proof.
  unfold SF64div, SFdiv, SFdiv_core_binary.
  rewrite !Z.sub_diag.
  change (Z.min (fexp prec emax 0) 0) with (-53)%Z.
  change (0 - -53)%Z with 53%Z. cbv iota beta.
  rewrite div_eucl_self_shift by lia.
  assert (Hloc : new_location (Zpos m) 0 = loc_Exact).
  { unfold new_location, new_location_even, new_location_odd.
    destruct (Z.even (Zpos m)); reflexivity. }
  rewrite Hloc, xorb_nilpotent.
  vm_compute. reflexivity.
Qed.

(** A regular double divided by itself is exactly 1. *)
Lemma div_regular_self (x : float) :
  Binary64.is_regular x = true -> x / x = 1.
Proof.
  intros Hx. destruct (regular_spec _ Hx) as [s [m [e E]]].
  apply Prim2SF_inj. rewrite div_spec, E. apply SFdiv_self.
Qed.

(** ** The conversion of a Python [int] below [2^53] *)

Lemma digits2_iter_xO (p k : positive) :
  digits2_pos (Pos.iter xO p k) = (digits2_pos p + k)%positive.
Proof.
  revert p. induction k using Pos.peano_ind; intros p.
  - simpl. lia.
  - rewrite Pos.iter_succ. simpl. rewrite IHk. lia.
Qed.

Lemma digits2_pos_bound (p : positive) :
  forall k, (0 <= k)%Z -> (Zpos p < 2 ^ k)%Z -> (Zpos (digits2_pos p) <= k)%Z.
Proof.
  induction p as [p IH | p IH |]; intros k Hk Hp;
    assert (0 < k)%Z
      by (destruct (Z.eq_dec k 0); [subst; simpl in Hp; lia | lia]).
  - replace k with (Z.succ (k - 1)) in Hp by lia.
    rewrite Z.pow_succ_r in Hp by lia.
    simpl digits2_pos. specialize (IH (k - 1)%Z). lia.
  - replace k with (Z.succ (k - 1)) in Hp by lia.
    rewrite Z.pow_succ_r in Hp by lia.
    simpl digits2_pos. specialize (IH (k - 1)%Z). lia.
  - simpl. lia.
Qed.

(** Rounding a canonical mantissa within range leaves it as it is. *)
Lemma binary_round_aux_canonical (s : bool) (m : positive) (e : Z) :
  bounded prec emax m e = true ->
  binary_round_aux prec emax s (Zpos m) e loc_Exact = S754_finite s m e.
Proof.
  unfold bounded, canonical_mantissa. intros H.
  apply andb_prop in H. destruct H as [Hc Hb].
  apply Z.eqb_eq in Hc.
  unfold binary_round_aux, shr_fexp. cbn [Zdigits2 shr_record_of_loc].
  rewrite Hc, Z.sub_diag. cbn [shr shr_m loc_of_shr_record round_nearest_even].
  cbn [Zdigits2 shr_record_of_loc].
  rewrite Hc, Z.sub_diag. cbn [shr shr_m]. now rewrite Hb.
Qed.

Lemma float_of_small_int (p : positive) :
  (Zpos p < 2 ^ 53)%Z ->
  exists m e,
    binary_normalize prec emax (Zpos p) 0 false = S754_finite false m e
    /\ bounded prec emax m e = true.
Proof.
  intros Hp.
  assert (Hd : (Zpos (digits2_pos p) <= 53)%Z)
    by (apply digits2_pos_bound; [lia | exact Hp]).
  unfold binary_normalize, binary_round.
  set (d := digits2_pos p) in *.
  assert (Hf : fexp prec emax (Zpos d + 0) = (Zpos d - 53)%Z).
  { unfold fexp, emin, prec, emax. lia. }
  rewrite Hf. unfold shl_align.
  destruct (Z.eq_dec (Zpos d) 53) as [E|E].
  - rewrite E. change (53 - 53 - 0)%Z with 0%Z. cbv iota.
    exists p, 0%Z.
    assert (Hb : bounded prec emax p 0 = true).
    { unfold bounded, canonical_mantissa. fold d. rewrite E. reflexivity. }
    split; [|exact Hb]. now apply binary_round_aux_canonical.
  - assert (Hneg : (Zpos d - 53 - 0)%Z = Zneg (Z.to_pos (53 - Zpos d))).
    { rewrite Z.sub_0_r.
      replace (Zpos d - 53)%Z with (- (53 - Zpos d))%Z by lia.
      destruct (53 - Zpos d)%Z eqn:E2; lia. }
    rewrite Hneg.
    set (k := Z.to_pos (53 - Zpos d)).
    exists (Pos.iter xO p k), (Zpos d - 53)%Z.
    assert (Hb : bounded prec emax (Pos.iter xO p k) (Zpos d - 53) = true).
    { unfold bounded, canonical_mantissa. rewrite digits2_iter_xO. fold d.
      assert (Hk : Zpos (d + k) = 53%Z)
        by (unfold k; rewrite Pos2Z.inj_add, Z2Pos.id; lia).
      rewrite Hk. apply andb_true_intro. split.
      - apply Z.eqb_eq. unfold fexp, emin, prec, emax. lia.
      - apply Z.leb_le. unfold prec, emax. lia. }
    split; [|exact Hb]. now apply binary_round_aux_canonical.
Qed.

(** [0 / n] for a length [n] below [2^53] is [0.0]. *)
Lemma zero_over_length (n : Z) :
  (0 < n < 2 ^ 53)%Z -> 0 / Binary64.float_of_int n = 0.
Proof.
  intros Hn. destruct n as [|p|p]; try lia.
  destruct (@float_of_small_int p) as [m [e [E Hb]]]; [lia|].
  apply Prim2SF_inj. rewrite div_spec. unfold Binary64.float_of_int.
  rewrite E, Prim2SF_SF2Prim by exact Hb. reflexivity.
Qed.

(** C8, as the code has it.  [CAGR] of the empty series raises
    [ZeroDivisionError]: [periods / len(returns)] divides one Python [int]
    by another.  [sharpeRatio] of a non-empty series of doubles whose
    annualised volatility is zero does not raise: it returns NaN or an
    infinity. *)
Theorem degenerate_inputs
    (libm_pow : float -> float -> float) (np_sum : list float -> float)
    (returns : list float) (periods : Z) (rfr : float) :
  returns <> [] ->
  PrimFloat.eqb (@annualVolatility float (Binary64.number libm_pow np_sum) returns periods) 0
  = true ->
  @CAGR float (Binary64.number libm_pow np_sum) [] periods = Raise ZeroDivisionError
  /\ exists s,
       @sharpeRatio float (Binary64.number libm_pow np_sum) returns periods rfr = Ok s
       /\ Binary64.is_special s = true.
Proof.
  intros Hne Hvol. split; [reflexivity|].
  unfold sharpeRatio, CAGR, int_truediv.
  rewrite (len_nonzero Hne). cbn [bind].
  eexists. split; [reflexivity|].
  now apply div_by_zero_is_special.
Qed.

(** ** [maxDrawdown] on doubles *)

Section Drawdown.
Variable libm_pow : float -> float -> float.
Variable np_sum : list float -> float.
Local Abbreviation N64 := (Binary64.number libm_pow np_sum).

Lemma cummax_rising (vs : list float) :
  forall a, Binary64.is_regular a = true ->
    forallb Binary64.is_regular vs = true ->
    Binary64.rising_from a vs = true ->
    @accumulate float N64 (@maximum float N64) (Some a) vs = vs.
Proof.
  induction vs as [|v vs IH]; intros a Ha Hvs Hr; [reflexivity|].
  cbn [forallb] in Hvs. apply andb_prop in Hvs. destruct Hvs as [Hv Hvs].
  cbn [Binary64.rising_from] in Hr. apply andb_prop in Hr.
  destruct Hr as [Hav Hr].
  cbn [accumulate].
  change (@is_nan float N64 v) with (PrimFloat.is_nan v).
  rewrite (regular_not_nan _ Hv).
  assert (Hm : @maximum float N64 a v = v).
  { unfold maximum. change (@leb float N64 v a) with (PrimFloat.leb v a).
    destruct (PrimFloat.leb v a) eqn:E; [|reflexivity].
    now apply leb_antisym. }
  rewrite Hm. f_equal. now apply IH.
Qed.

Lemma Series_cummax_rising (vs : list float) :
  forallb Binary64.is_regular vs = true -> Binary64.rising vs = true ->
  @Series_cummax float N64 vs = vs.
Proof.
  unfold Series_cummax. destruct vs as [|v vs]; [reflexivity|].
  intros Hvs Hr. cbn [forallb] in Hvs. apply andb_prop in Hvs.
  destruct Hvs as [Hv Hvs]. cbn [accumulate].
  change (@is_nan float N64 v) with (PrimFloat.is_nan v).
  rewrite (regular_not_nan _ Hv). f_equal. now apply cummax_rising.
Qed.

Lemma ddSeries_rising (returns : list float) :
  forallb Binary64.is_regular (@value float N64 returns) = true ->
  Binary64.rising (@value float N64 returns) = true ->
  @ddSeries float N64 returns = map (fun _ => 0) returns.
Proof.
  intros Hreg Hr. unfold ddSeries.
  rewrite (Series_cummax_rising _ Hreg Hr).
  unfold Series_rsub, Series_div. rewrite combine_self, !map_map.
  cbn [fst snd].
  rewrite <- (map_const_length 0 (@value float N64 returns) returns)
    by apply value_length.
  apply map_ext_in. intros x Hx.
  rewrite forallb_forall in Hreg.
  change (@div float N64) with PrimFloat.div.
  rewrite div_regular_self by now apply Hreg.
  reflexivity.
Qed.

(** C7, as the code has it.  On doubles: when the cumulative value path
    of a non-empty series (shorter than [2^53]) is made of finite non-zero
    doubles and never falls, [maxDrawdown] returns exactly
    [(0.0, 0.0, 0)].  That all returns are [>= 0] is not enough: the
    product can overflow. *)
Theorem rising_path_on_doubles (returns : list float) :
  returns <> [] ->
  (len returns < 2 ^ 53)%Z ->
  forallb Binary64.is_regular (@value float N64 returns) = true ->
  Binary64.rising (@value float N64 returns) = true ->
  @maxDrawdown float N64 returns = Ok (0, 0, 0%Z).
Proof.
  intros Hne Hlen Hreg Hr.
  rewrite (maxDrawdown_nonempty Hne), (ddSeries_rising _ Hreg Hr).
  set (zs := map (fun _ : float => 0) returns).
  assert (Hz : Forall (fun d : float => d = 0) zs).
  { apply Forall_forall. intros x Hx. apply in_map_iff in Hx.
    now destruct Hx as [? [<- _]]. }
  assert (Hzne : zs <> []) by (destruct returns; [congruence | discriminate]).
  rewrite (@duration_all_zero float N64)
    by (eapply Forall_impl; [|exact Hz]; cbn; intros a ->; reflexivity).
  rewrite (@Series_gt0_none float N64)
    by (eapply Forall_impl; [|exact Hz]; cbn; intros a ->; reflexivity).
  rewrite (@Series_max_constant float N64 0 zs)
    by (try reflexivity; assumption).
  assert (Hl : len zs = len returns) by (unfold len, zs; now rewrite length_map).
  rewrite Hl. cbn [snd].
  change (@div float N64 (@of_int float N64 (len (@nil float)))
            (@of_int float N64 (len returns)))
    with (0 / Binary64.float_of_int (len returns)).
  rewrite zero_over_length; [reflexivity|].
  split; [|assumption]. unfold len. destruct returns; [congruence | simpl; lia].
Qed.

End Drawdown.

(** ** [CAGR] on doubles *)

Section Growth.
Variable libm_pow : float -> float -> float.
Variable np_sum : list float -> float.
Local Abbreviation N64 := (Binary64.number libm_pow np_sum).

Lemma finite_spec (x : float) :
  PrimFloat.is_finite x = true -> Binary64.zero_or_finite (Prim2SF x) = true.
Proof.
  unfold PrimFloat.is_finite. intros H. rewrite negb_true_iff in H.
  apply orb_false_elim in H. destruct H as [Hn Hi].
  destruct (Prim2SF x) as [s | s | | s m e] eqn:E; try reflexivity.
  - rewrite (is_infinity_of_spec _ E) in Hi. discriminate.
  - rewrite (is_nan_of_spec _ E) in Hn. discriminate.
Qed.

Lemma finite_not_nan (x : float) :
  PrimFloat.is_finite x = true -> PrimFloat.is_nan x = false.
Proof.
  unfold PrimFloat.is_finite. intros H. rewrite negb_true_iff in H.
  now apply orb_false_elim in H.
Qed.

(** A zero or NaN times a finite double is a zero or NaN. *)
Lemma mul_keeps_zero_or_nan (acc x : float) :
  Binary64.zero_or_nan (Prim2SF acc) = true ->
  Binary64.zero_or_finite (Prim2SF x) = true ->
  Binary64.zero_or_nan (Prim2SF (acc * x)) = true.
Proof.
  rewrite mul_spec.
  destruct (Prim2SF acc), (Prim2SF x); cbn; intros; congruence.
Qed.

(** Any double times a zero is a zero or NaN. *)
Lemma mul_by_zero (acc x : float) (s : bool) :
  Prim2SF x = S754_zero s ->
  Binary64.zero_or_nan (Prim2SF (acc * x)) = true.
Proof.
  intros Hx. rewrite mul_spec, Hx. destruct (Prim2SF acc); reflexivity.
Qed.

Lemma product_with_zero_factor (xs : list float) :
  forall acc,
    Forall (fun x => Binary64.zero_or_finite (Prim2SF x) = true) xs ->
    Binary64.zero_or_nan (Prim2SF acc) = true \/ In 0 xs ->
    Binary64.zero_or_nan (Prim2SF (fold_left PrimFloat.mul xs acc)) = true.
Proof.
  induction xs as [|x xs IH]; intros acc Hxs Hz.
  - destruct Hz as [Hz | []]. exact Hz.
  - inversion Hxs as [|? ? Hx Hxs']; subst. cbn [fold_left].
    apply IH; [assumption|].
    destruct Hz as [Hz | [Hx0 | Hin]].
    + left. now apply mul_keeps_zero_or_nan.
    + left. subst x. now apply (@mul_by_zero acc 0 false).
    + now right.
Qed.

(** C9, as the code has it.  On doubles: with a return of exactly [-1.0],
    every [1 + r_i] finite and a product that is not NaN (no overflow met
    the factor zero), the product is a zero; and when [libm_pow] takes a
    zero to a zero at the exponent [periods / n], [CAGR] returns exactly
    [-1.0]. *)
Theorem total_loss_on_doubles (returns : list float) (periods : Z) :
  let product := @Series_product float N64 (@Series_add float N64 returns 1) in
  let e := Binary64.float_of_int periods / Binary64.float_of_int (len returns) in
  In (-1) returns ->
  forallb PrimFloat.is_finite (@Series_add float N64 returns 1) = true ->
  PrimFloat.is_nan product = false ->
  (forall z, PrimFloat.is_zero z = true ->
             PrimFloat.is_zero (libm_pow z e) = true) ->
  PrimFloat.is_zero product = true
  /\ @CAGR float N64 returns periods = Ok (-1).
Proof.
  intros product e Hin Hfin Hnan Hpow.
  assert (Hz : exists s, Prim2SF product = S754_zero s).
  { assert (H : Binary64.zero_or_nan (Prim2SF product) = true).
    { unfold product, Series_product.
      rewrite forallb_forall in Hfin.
      rewrite filter_all.
      - apply product_with_zero_factor.
        + apply Forall_forall. intros x Hx. apply finite_spec. now apply Hfin.
        + right. unfold Series_add. apply in_map_iff. exists (-1). now split.
      - apply Forall_forall. intros x Hx. unfold notna.
        change (@is_nan float N64 x) with (PrimFloat.is_nan x).
        now rewrite finite_not_nan by now apply Hfin. }
    destruct (Prim2SF product) as [s | s | | s m e0] eqn:E; try discriminate.
    - now exists s.
    - rewrite (is_nan_of_spec _ E) in Hnan. discriminate. }
  destruct Hz as [s Hs].
  assert (Hzero : PrimFloat.is_zero product = true).
  { unfold PrimFloat.is_zero. rewrite eqb_spec, Hs. reflexivity. }
  split; [exact Hzero|].
  assert (Hne : returns <> []) by (destruct returns; [contradiction | discriminate]).
  unfold CAGR, int_truediv. rewrite (len_nonzero Hne). cbn [bind].
  f_equal. change (libm_pow product e - 1 = -1).
  specialize (Hpow product Hzero).
  destruct (eqb_zero_inv Hpow) as [s' Hs'].
  apply Prim2SF_inj. rewrite sub_spec, Hs'. reflexivity.
Qed.
End Growth.
End Doubles.

(** * What the functions do on every series *)

Section Behaviour.
Context {F : Type} {N : Number F}.

(** ** NaN entries in [CAGR] *)

Lemma filter_map_commute (A B : Type) (f : A -> B) (p : B -> bool) (l : list A) :
  filter p (map f l) = map f (filter (fun x => p (f x)) l).
Proof.
  induction l as [|x l IH]; [reflexivity|].
  cbn [map filter]. destruct (p (f x)); cbn [map]; now rewrite IH.
Qed.

Lemma fold_left_map_factors (rs : list F) :
  forall acc,
    fold_left mul (map (fun x => add x one) rs) acc
    = fold_left (fun a r => mul a (add r one)) rs acc.
Proof. induction rs as [|r rs IH]; intros acc; [reflexivity | apply IH]. Qed.

(** A return [r] whose [r + 1.0] is NaN is left out of the product
    but not out of the count: [CAGR] compounds the remaining returns and
    still annualizes with the length of the whole series. *)
Theorem CAGR_skips_nan_and_counts_it (returns : list F) (periods : Z) :
  returns <> [] ->
  CAGR returns periods
  = Ok (sub (pow (growth (filter (fun r => notna (add r one)) returns))
                 (div (of_int periods) (of_int (len returns))))
            one).
Proof.
  intros Hne. unfold CAGR, int_truediv. rewrite (len_nonzero Hne). cbn [bind].
  unfold Series_product, Series_add, growth.
  now rewrite filter_map_commute, fold_left_map_factors.
Qed.

(** ** The duration fold is the longest run *)

Lemma leading_run_nonneg (dds : list F) : (0 <= leading_run dds)%Z.
Proof.
  induction dds as [|d dds IH]; cbn [leading_run]; [lia|].
  destruct (eqb d zero); lia.
Qed.

Lemma leading_le_longest (dds : list F) : (leading_run dds <= longest_run dds)%Z.
Proof. destruct dds as [|d dds]; [simpl; lia|]. cbn [longest_run]. apply Z.le_max_l. Qed.

(** From a running count [c] and a longest count [m] the fold ends with
    the largest of [m], the run that continues [c] and the runs after
    it. *)
Lemma durReduce_runs (dds : list F) :
  forall c m, (0 <= c <= m)%Z ->
    snd (fold_left durReduce dds (c, m))
    = Z.max m (Z.max (c + leading_run dds) (longest_run dds)).
Proof.
  induction dds as [|d dds IH]; intros c m Hc.
  - simpl. lia.
  - cbn [fold_left]. unfold durReduce at 2. cbn [fst snd].
    pose proof (leading_run_nonneg dds). pose proof (leading_le_longest dds).
    cbn [leading_run longest_run].
    destruct (eqb d zero).
    + rewrite IH by lia. lia.
    + rewrite IH by lia. lia.
Qed.

Lemma reduce_durReduce (dds : list F) :
  snd (reduce durReduce dds (0%Z, 0%Z)) = longest_run dds.
Proof.
  unfold reduce. rewrite durReduce_runs by lia.
  pose proof (leading_run_nonneg dds). pose proof (leading_le_longest dds). lia.
Qed.

(** [maxDrawdown] on a non-empty series, with the fold replaced by the
    longest run. *)
Lemma maxDrawdown_longest_run (returns : list F) :
  returns <> [] ->
  maxDrawdown returns
  = Ok (Series_max (ddSeries returns),
        div (of_int (len (Series_gt0 (ddSeries returns))))
            (of_int (len (ddSeries returns))),
        longest_run (ddSeries returns)).
Proof.
  intros Hne. rewrite (maxDrawdown_nonempty Hne). now rewrite reduce_durReduce.
Qed.

(** The duration [maxDrawdown] returns is the length of the longest
    run of consecutive entries of the drawdown series that are not
    [== 0]. *)
Theorem maxDrawdown_duration_is_longest_run (returns : list F) :
  returns <> [] ->
  exists dd ddProportion,
    maxDrawdown returns
    = Ok (dd, ddProportion, longest_run (ddSeries returns)).
Proof.
  intros Hne. rewrite (maxDrawdown_longest_run Hne). eauto.
Qed.

Lemma leading_run_le_not_zero (dds : list F) :
  (leading_run dds <= len (not_zero dds))%Z.
Proof.
  unfold len, not_zero.
  induction dds as [|d dds IH]; cbn [leading_run filter]; [simpl; lia|].
  destruct (eqb d zero); cbn [negb length]; lia.
Qed.

Lemma longest_run_le_not_zero (dds : list F) :
  (longest_run dds <= len (not_zero dds))%Z.
Proof.
  induction dds as [|d dds IH]; [simpl; unfold len; simpl; lia|].
  cbn [longest_run]. pose proof (leading_run_le_not_zero (d :: dds)).
  assert (len (not_zero dds) <= len (not_zero (d :: dds)))%Z.
  { unfold len, not_zero. cbn [filter].
    destruct (eqb d zero); cbn [negb length]; lia. }
  lia.
Qed.

Lemma longest_run_zero (dds : list F) :
  longest_run dds = 0%Z <-> Forall (fun d => eqb d zero = true) dds.
Proof.
  induction dds as [|d dds IH]; [split; [constructor | reflexivity]|].
  cbn [longest_run leading_run].
  pose proof (leading_run_nonneg dds). pose proof (leading_le_longest dds).
  destruct (eqb d zero) eqn:E.
  - split.
    + intros Hz. constructor; [exact E|]. apply IH. lia.
    + intros Hz. inversion Hz as [|? ? _ Hz']; subst. apply IH in Hz'. lia.
  - split; [lia|]. intros Hz. inversion Hz; subst. congruence.
Qed.

(** The duration is never negative, is at most the number of entries
    of the drawdown series that are not [== 0], hence at most the length
    of the series, and is 0 exactly when every entry is [== 0]. *)
Theorem maxDrawdown_duration_range (returns : list F) :
  returns <> [] ->
  exists dd ddProportion dur,
    maxDrawdown returns = Ok (dd, ddProportion, dur)
    /\ (0 <= dur <= len (not_zero (ddSeries returns)))%Z
    /\ (len (not_zero (ddSeries returns)) <= len returns)%Z
    /\ (dur = 0%Z <-> Forall (fun d => eqb d zero = true) (ddSeries returns)).
Proof.
  intros Hne. rewrite (maxDrawdown_longest_run Hne).
  eexists. eexists. eexists. split; [reflexivity|]. split; [|split].
  - pose proof (leading_run_nonneg (ddSeries returns)).
    pose proof (leading_le_longest (ddSeries returns)).
    pose proof (longest_run_le_not_zero (ddSeries returns)). lia.
  - unfold len, not_zero.
    pose proof (filter_length_le (fun d => negb (eqb d zero)) (ddSeries returns)) as Hf.
    rewrite ddSeries_length in Hf. lia.
  - apply longest_run_zero.
Qed.

(** ** Later returns do not change earlier drawdowns *)

Lemma accumulate_app (f : F -> F -> F) (a b : list F) :
  forall acc, exists acc',
    accumulate f acc (a ++ b) = accumulate f acc a ++ accumulate f acc' b.
Proof.
  induction a as [|x a IH]; intros acc; [exists acc; reflexivity|].
  cbn [app accumulate]. destruct (is_nan x).
  - destruct (IH acc) as [acc' H]. exists acc'. now rewrite H.
  - match goal with |- context [accumulate f (Some ?v) (a ++ b)] =>
      destruct (IH (Some v)) as [acc' H] end.
    exists acc'. now rewrite H.
Qed.

Lemma combine_app_same (A B : Type) (a a' : list A) (b b' : list B) :
  length a = length b ->
  combine (a ++ a') (b ++ b') = combine a b ++ combine a' b'.
Proof.
  revert b. induction a as [|x a IH]; intros [|y b] H; try discriminate.
  - reflexivity.
  - simpl. f_equal. apply IH. now inversion H.
Qed.

Lemma ddSeries_app (a b : list F) :
  exists tl, ddSeries (a ++ b) = ddSeries a ++ tl.
Proof.
  unfold ddSeries, value, Series_cumprod, Series_cummax, Series_add.
  rewrite map_app.
  destruct (accumulate_app mul (map (fun x => add x one) a)
              (map (fun x => add x one) b) None) as [acc1 H1].
  rewrite H1.
  match goal with |- context [accumulate maximum None (?va ++ ?vb)] =>
    destruct (accumulate_app maximum va vb None) as [acc2 H2] end.
  rewrite H2. unfold Series_rsub, Series_div.
  rewrite combine_app_same by now rewrite !accumulate_length.
  rewrite !map_app. eexists. reflexivity.
Qed.

Lemma leading_run_app (l t : list F) :
  (leading_run l <= leading_run (l ++ t))%Z.
Proof.
  induction l as [|d l IH]; [apply leading_run_nonneg|].
  cbn [app leading_run]. destruct (eqb d zero); lia.
Qed.

Lemma longest_run_app (l t : list F) :
  (longest_run l <= longest_run (l ++ t))%Z.
Proof.
  induction l as [|d l IH].
  - pose proof (leading_run_nonneg t). pose proof (leading_le_longest t).
    simpl. lia.
  - pose proof (leading_run_app (d :: l) t) as H.
    cbn [app longest_run] in *. lia.
Qed.

(** The drawdown series looks only backwards: the drawdowns of the
    first returns are the same whatever returns follow them, and the
    duration can only grow when returns are appended. *)
Theorem appended_returns_keep_earlier_drawdowns (a b : list F) :
  firstn (length a) (ddSeries (a ++ b)) = ddSeries a
  /\ (a <> [] ->
      exists dd dd' p p' dur dur',
        maxDrawdown a = Ok (dd, p, dur)
        /\ maxDrawdown (a ++ b) = Ok (dd', p', dur')
        /\ (dur <= dur')%Z).
Proof.
  destruct (ddSeries_app a b) as [tl Htl]. split.
  - rewrite Htl, <- (ddSeries_length a), firstn_app, Nat.sub_diag, firstn_all.
    cbn [firstn]. apply app_nil_r.
  - intros Hne.
    assert (Hne' : a ++ b <> []) by (destruct a; [congruence | discriminate]).
    rewrite (maxDrawdown_longest_run Hne), (maxDrawdown_longest_run Hne').
    do 6 eexists. split; [reflexivity|]. split; [reflexivity|].
    rewrite Htl. apply longest_run_app.
Qed.
End Behaviour.

(** * NaN on doubles *)

Section NaNOnDoubles.
Local Open Scope float_scope.
Variable libm_pow : float -> float -> float.
Variable np_sum : list float -> float.
Local Abbreviation N64 := (Binary64.number libm_pow np_sum).

Lemma SFcompare_refl (s : bool) (m : positive) (e : Z) :
  SFcompare (S754_finite s m e) (S754_finite s m e) = Some Eq.
Proof.
  unfold SFcompare. rewrite Z.compare_refl, Pos.compare_cont_refl.
  destruct s; reflexivity.
Qed.

Lemma is_nan_inv (x : float) :
  PrimFloat.is_nan x = true -> Prim2SF x = S754_nan.
Proof.
  unfold PrimFloat.is_nan. rewrite eqb_spec. unfold SFeqb.
  destruct (Prim2SF x) as [s | s | | s m e]; try reflexivity.
  - destruct s; discriminate.
  - destruct s; discriminate.
  - rewrite SFcompare_refl. discriminate.
Qed.

Lemma mul_nan_l (x y : float) :
  PrimFloat.is_nan x = true -> PrimFloat.is_nan (x * y) = true.
Proof.
  intros H. apply is_nan_of_spec. rewrite mul_spec, (is_nan_inv _ H).
  reflexivity.
Qed.

Lemma div_nan_r (x y : float) :
  PrimFloat.is_nan y = true -> PrimFloat.is_nan (x / y) = true.
Proof.
  intros H. apply is_nan_of_spec. rewrite div_spec, (is_nan_inv _ H).
  destruct (Prim2SF x); reflexivity.
Qed.

Lemma ltb_nan_r (x y : float) :
  PrimFloat.is_nan y = true -> PrimFloat.ltb x y = false.
Proof.
  intros H. rewrite ltb_spec, (is_nan_inv _ H).
  unfold SFltb, SFcompare. destruct (Prim2SF x); reflexivity.
Qed.

Lemma eqb_nan_l (x y : float) :
  PrimFloat.is_nan x = true -> PrimFloat.eqb x y = false.
Proof.
  intros H. rewrite eqb_spec, (is_nan_inv _ H). reflexivity.
Qed.

(** ** Too few returns *)

(** On doubles, for every libm [pow]: a non-empty series with at
    most one entry that is not NaN (a single return, say) has no sample
    standard deviation, so its volatility is NaN and so is its Sharpe
    ratio; neither function raises. *)
Theorem too_few_returns_on_doubles
    (returns : list float) (periods : Z) (rfr : float) :
  returns <> [] ->
  (length (filter (@notna float N64) returns) <= 1)%nat ->
  PrimFloat.is_nan (@annualVolatility float N64 returns periods) = true
  /\ exists s,
       @sharpeRatio float N64 returns periods rfr = Ok s
       /\ PrimFloat.is_nan s = true.
Proof.
  intros Hne Hlen.
  assert (Hstd : @Series_std float N64 returns = PrimFloat.nan).
  { unfold Series_std, len.
    destruct (Z.leb_spec (Z.of_nat (length (filter (@notna float N64) returns)) - 1) 0);
      [reflexivity | lia]. }
  assert (Hvol : PrimFloat.is_nan (@annualVolatility float N64 returns periods) = true).
  { unfold annualVolatility. rewrite Hstd. now apply mul_nan_l. }
  split; [exact Hvol|].
  unfold sharpeRatio, CAGR, int_truediv. rewrite (len_nonzero Hne). cbn [bind].
  eexists. split; [reflexivity|]. now apply div_nan_r.
Qed.

(** ** NaN among the drawdowns *)

Lemma filter_idempotent (A : Type) (p : A -> bool) (l : list A) :
  filter p (filter p l) = filter p l.
Proof.
  induction l as [|x l IH]; [reflexivity|].
  cbn [filter]. destruct (p x) eqn:E; [|exact IH].
  cbn [filter]. now rewrite E, IH.
Qed.

Lemma Series_max_notna (s : list float) :
  @Series_max float N64 (filter (@notna float N64) s) = @Series_max float N64 s.
Proof. unfold Series_max. now rewrite filter_idempotent. Qed.

Lemma Series_gt0_notna (s : list float) :
  @Series_gt0 float N64 (filter (@notna float N64) s) = @Series_gt0 float N64 s.
Proof.
  unfold Series_gt0. induction s as [|x s IH]; [reflexivity|].
  cbn [filter]. unfold notna at 1.
  change (@is_nan float N64 x) with (PrimFloat.is_nan x).
  change (@ltb float N64 (@zero float N64) x) with (PrimFloat.ltb 0 x).
  destruct (PrimFloat.is_nan x) eqn:E; cbn [negb].
  - rewrite (ltb_nan_r 0 _ E). exact IH.
  - cbn [filter].
    change (@ltb float N64 (@zero float N64) x) with (PrimFloat.ltb 0 x).
    destruct (PrimFloat.ltb 0 x); now rewrite IH.
Qed.

(** On doubles, for every libm [pow]: a NaN among the drawdowns (an
    overflowing product gives [1 - inf / inf], a NaN return gives NaN)
    is skipped by the maximum and is not counted as time in drawdown,
    though the proportion still divides by the whole length; but it is
    not [== 0], so the duration fold counts it: the duration, the longest
    run of entries not [== 0], is at least 1. *)
Theorem nan_drawdown_counts_towards_duration (returns : list float) :
  let dds := @ddSeries float N64 returns in
  existsb PrimFloat.is_nan dds = true ->
  @maxDrawdown float N64 returns
  = Ok (@Series_max float N64 (filter (@notna float N64) dds),
        Binary64.float_of_int
          (len (@Series_gt0 float N64 (filter (@notna float N64) dds)))
        / Binary64.float_of_int (len returns),
        @longest_run float N64 dds)
  /\ (1 <= @longest_run float N64 dds)%Z.
Proof.
  intros dds Hnan.
  assert (Hne : returns <> []) by (intros ->; discriminate).
  rewrite (maxDrawdown_longest_run Hne). fold dds.
  rewrite Series_max_notna, Series_gt0_notna.
  assert (Hl : len dds = len returns).
  { unfold len, dds. now rewrite ddSeries_length. }
  rewrite Hl. split; [reflexivity|].
  pose proof (@leading_run_nonneg float N64 dds).
  pose proof (@leading_le_longest float N64 dds).
  assert (Hz : @longest_run float N64 dds <> 0%Z).
  { intros Hz. apply longest_run_zero in Hz.
    apply existsb_exists in Hnan. destruct Hnan as [x [Hx Hx']].
    rewrite Forall_forall in Hz. specialize (Hz x Hx).
    change (PrimFloat.eqb x 0 = true) in Hz.
    rewrite (@eqb_nan_l x 0 Hx') in Hz. discriminate. }
  lia.
Qed.

(** On doubles, for every libm [pow]: a leading NaN return (the
    first entry of a series of percentage changes) gives a leading NaN
    drawdown and leaves the other drawdowns as they are without it.  The
    maximum and the count of periods in drawdown ignore it, the
    proportion divides by one more, and the duration takes it for one
    period of drawdown, which also lengthens a drawdown the rest starts
    with. *)
Theorem leading_nan_on_doubles (rest : list float) :
  @ddSeries float N64 (PrimFloat.nan :: rest)
  = PrimFloat.nan :: @ddSeries float N64 rest
  /\ @maxDrawdown float N64 (PrimFloat.nan :: rest)
     = Ok (@Series_max float N64 (@ddSeries float N64 rest),
           Binary64.float_of_int
             (len (@Series_gt0 float N64 (@ddSeries float N64 rest)))
           / Binary64.float_of_int (len rest + 1),
           Z.max (1 + @leading_run float N64 (@ddSeries float N64 rest))
                 (@longest_run float N64 (@ddSeries float N64 rest))).
Proof.
  assert (H : @ddSeries float N64 (PrimFloat.nan :: rest)
              = PrimFloat.nan :: @ddSeries float N64 rest) by reflexivity.
  split; [exact H|].
  rewrite (@maxDrawdown_longest_run float N64 (PrimFloat.nan :: rest))
    by discriminate.
  rewrite H.
  assert (Hl : len (PrimFloat.nan :: @ddSeries float N64 rest) = (len rest + 1)%Z).
  { unfold len. cbn [length]. rewrite ddSeries_length. lia. }
  rewrite Hl.
  assert (Hmax : @Series_max float N64 (PrimFloat.nan :: @ddSeries float N64 rest)
                 = @Series_max float N64 (@ddSeries float N64 rest)) by reflexivity.
  assert (Hgt : @Series_gt0 float N64 (PrimFloat.nan :: @ddSeries float N64 rest)
                = @Series_gt0 float N64 (@ddSeries float N64 rest)) by reflexivity.
  rewrite Hmax, Hgt. do 2 f_equal.
Qed.
End NaNOnDoubles.

(** * The order of the doubles *)

Section OrderOnDoubles.
Local Open Scope float_scope.

Lemma SFcompare_place (x y : spec_float) :
  x <> S754_nan -> y <> S754_nan ->
  match SFcompare x y with
  | Some Lt => before (place x) (place y)
  | Some Eq => place x = place y
  | Some Gt => before (place y) (place x)
  | None => False
  end.
Proof.
  intros Hx Hy.
  destruct x as [sx | sx | | sx mx ex], y as [sy | sy | | sy my ey];
    try congruence; try (destruct sx); try (destruct sy);
    cbn [SFcompare place]; unfold before; cbn [fst snd]; try reflexivity; try lia.
  - destruct (Z.compare_spec ex ey) as [He|He|He]; try lia.
    change (Pos.compare_cont Eq mx my) with (Pos.compare mx my).
    destruct (Pos.compare_spec mx my) as [Hm|Hm|Hm]; cbn [CompOpp];
      subst; try reflexivity; lia.
  - destruct (Z.compare_spec ex ey) as [He|He|He]; try lia.
    change (Pos.compare_cont Eq mx my) with (Pos.compare mx my).
    destruct (Pos.compare_spec mx my) as [Hm|Hm|Hm];
      subst; try reflexivity; lia.
Qed.

Lemma not_nan_spec (x : float) :
  PrimFloat.is_nan x = false -> Prim2SF x <> S754_nan.
Proof. intros H E. rewrite (is_nan_of_spec _ E) in H. discriminate. Qed.

Lemma place_cases (p q : Z * Z * Z) :
  before p q \/ p = q \/ before q p.
Proof.
  destruct p as [[a b] c], q as [[a' b'] c']. unfold before. cbn [fst snd].
  destruct (Z.lt_trichotomy a a') as [H|[H|H]]; [lia| |lia].
  destruct (Z.lt_trichotomy b b') as [H1|[H1|H1]]; [lia| |lia].
  destruct (Z.lt_trichotomy c c') as [H2|[H2|H2]]; [lia| |lia].
  right. left. congruence.
Qed.

Lemma before_irrefl (p q : Z * Z * Z) : before p q -> p <> q.
Proof. unfold before. intros H E. subst q. lia. Qed.

Lemma before_asym (p q : Z * Z * Z) : before p q -> ~ before q p.
Proof. unfold before. lia. Qed.

Lemma before_trans (p q r : Z * Z * Z) :
  before p q -> before q r -> before p r.
Proof. unfold before. lia. Qed.

Lemma leb_place (x y : float) :
  PrimFloat.is_nan x = false -> PrimFloat.is_nan y = false ->
  (PrimFloat.leb x y = true
   <-> before (place (Prim2SF x)) (place (Prim2SF y))
       \/ place (Prim2SF x) = place (Prim2SF y)).
Proof.
  intros Hx Hy. rewrite leb_spec. unfold SFleb.
  pose proof (SFcompare_place (not_nan_spec _ Hx) (not_nan_spec _ Hy)) as H.
  destruct (SFcompare (Prim2SF x) (Prim2SF y)) as [[ | | ]|]; try contradiction.
  - split; auto.
  - split; auto.
  - split; [discriminate|]. intros [H1|H1].
    + exfalso. exact (before_asym H H1).
    + exfalso. apply (before_irrefl H). now symmetry.
Qed.

Lemma ltb_place (x y : float) :
  PrimFloat.is_nan x = false -> PrimFloat.is_nan y = false ->
  (PrimFloat.ltb x y = true
   <-> before (place (Prim2SF x)) (place (Prim2SF y))).
Proof.
  intros Hx Hy. rewrite ltb_spec. unfold SFltb.
  pose proof (SFcompare_place (not_nan_spec _ Hx) (not_nan_spec _ Hy)) as H.
  destruct (SFcompare (Prim2SF x) (Prim2SF y)) as [[ | | ]|]; try contradiction.
  - split; [discriminate|]. intros H1. exfalso.
    apply (before_irrefl H1). exact H.
  - split; auto.
  - split; [discriminate|]. intros H1. exfalso. exact (before_asym H H1).
Qed.

Lemma eqb_place (x y : float) :
  PrimFloat.is_nan x = false -> PrimFloat.is_nan y = false ->
  (PrimFloat.eqb x y = true <-> place (Prim2SF x) = place (Prim2SF y)).
Proof.
  intros Hx Hy. rewrite eqb_spec. unfold SFeqb.
  pose proof (SFcompare_place (not_nan_spec _ Hx) (not_nan_spec _ Hy)) as H.
  destruct (SFcompare (Prim2SF x) (Prim2SF y)) as [[ | | ]|]; try contradiction.
  - split; auto.
  - split; [discriminate|]. intros H1. exfalso. exact (before_irrefl H H1).
  - split; [discriminate|]. intros H1. exfalso.
    apply (before_irrefl H). now symmetry.
Qed.

(** On doubles that are not NaN, [<=] is reflexive, transitive and
    total. *)
Lemma leb_refl (x : float) :
  PrimFloat.is_nan x = false -> PrimFloat.leb x x = true.
Proof. intros Hx. apply leb_place; auto. Qed.

Lemma leb_trans (x y z : float) :
  PrimFloat.is_nan x = false -> PrimFloat.is_nan y = false ->
  PrimFloat.is_nan z = false ->
  PrimFloat.leb x y = true -> PrimFloat.leb y z = true ->
  PrimFloat.leb x z = true.
Proof.
  intros Hx Hy Hz. rewrite !leb_place by assumption.
  intros [H1|H1] [H2|H2].
  - left. eapply before_trans; eassumption.
  - left. now rewrite <- H2.
  - left. now rewrite H1.
  - right. congruence.
Qed.

Lemma leb_total (x y : float) :
  PrimFloat.is_nan x = false -> PrimFloat.is_nan y = false ->
  PrimFloat.leb x y = false -> PrimFloat.leb y x = true.
Proof.
  intros Hx Hy H. apply leb_place; try assumption.
  destruct (place_cases (place (Prim2SF x)) (place (Prim2SF y))) as [H1|[H1|H1]].
  - assert (PrimFloat.leb x y = true) by (apply leb_place; auto). congruence.
  - assert (PrimFloat.leb x y = true) by (apply leb_place; auto). congruence.
  - now left.
Qed.

End OrderOnDoubles.

(** * Arithmetic that does not give NaN *)

Section NoNaN.
Local Open Scope float_scope.

Lemma shr_1_nonneg (mrs : shr_record) :
  (0 <= shr_m mrs)%Z -> (0 <= shr_m (shr_1 mrs))%Z.
Proof.
  destruct mrs as [m r s]. cbn [shr_m]. intros H.
  destruct m as [|p|p]; [cbn; lia | | lia].
  destruct p; cbn; lia.
Qed.

Lemma iter_pos_shr_1_nonneg (p : positive) :
  forall mrs, (0 <= shr_m mrs)%Z -> (0 <= shr_m (iter_pos shr_1 p mrs))%Z.
Proof.
  induction p as [p IH | p IH |]; intros mrs H; cbn [iter_pos].
  - apply IH, IH. now apply shr_1_nonneg.
  - now apply IH, IH.
  - now apply shr_1_nonneg.
Qed.

Lemma shr_fexp_nonneg (m e : Z) (l : location) :
  (0 <= m)%Z -> (0 <= shr_m (fst (shr_fexp prec emax m e l)))%Z.
Proof.
  intros H. unfold shr_fexp, shr.
  assert (H0 : (0 <= shr_m (shr_record_of_loc m l))%Z).
  { destruct l as [|[ | | ]]; exact H. }
  destruct (fexp prec emax (Zdigits2 m + e) - e)%Z; cbn [fst]; try assumption.
  now apply iter_pos_shr_1_nonneg.
Qed.

Lemma round_nearest_even_nonneg (m : Z) (l : location) :
  (0 <= m)%Z -> (0 <= round_nearest_even m l)%Z.
Proof.
  intros H. destruct l as [|[ | | ]]; cbn; try lia.
  destruct (Z.even m); lia.
Qed.

(** Rounding a mantissa that is not negative gives a zero, a finite
    number or an infinity. *)
Lemma binary_round_aux_not_nan (s : bool) (m e : Z) (l : location) :
  (0 <= m)%Z -> binary_round_aux prec emax s m e l <> S754_nan.
Proof.
  intros H. unfold binary_round_aux.
  pose proof (shr_fexp_nonneg e l H) as H1.
  destruct (shr_fexp prec emax m e l) as [mrs' e'] eqn:E1. cbn [fst] in H1.
  pose proof (shr_fexp_nonneg e' loc_Exact
                (round_nearest_even_nonneg (loc_of_shr_record mrs') H1)) as H2.
  destruct (shr_fexp prec emax
              (round_nearest_even (shr_m mrs') (loc_of_shr_record mrs'))
              e' loc_Exact) as [mrs'' e''] eqn:E2.
  cbn [fst] in H2.
  destruct (shr_m mrs'') as [|p|p]; [discriminate | | lia].
  destruct (e'' <=? emax - prec)%Z; discriminate.
Qed.

Lemma binary_round_not_nan (s : bool) (m : positive) (e : Z) :
  binary_round prec emax s m e <> S754_nan.
Proof.
  unfold binary_round.
  destruct (shl_align m e (fexp prec emax (Z.pos (digits2_pos m) + e))) as [mz ez].
  apply binary_round_aux_not_nan. lia.
Qed.

Lemma binary_normalize_not_nan (m e : Z) (szero : bool) :
  binary_normalize prec emax m e szero <> S754_nan.
Proof.
  destruct m; cbn [binary_normalize];
    [discriminate | apply binary_round_not_nan | apply binary_round_not_nan].
Qed.

Lemma is_nan_spec_false (x : float) :
  Prim2SF x <> S754_nan -> PrimFloat.is_nan x = false.
Proof.
  intros H. destruct (PrimFloat.is_nan x) eqn:E; [|reflexivity].
  exfalso. apply H. now apply is_nan_inv.
Qed.

Lemma finite_cases (x : float) :
  PrimFloat.is_finite x = true ->
  (exists s, Prim2SF x = S754_zero s)
  \/ exists s m e, Prim2SF x = S754_finite s m e.
Proof.
  intros H. pose proof (finite_spec _ H) as Hf.
  destruct (Prim2SF x) as [s | s | | s m e]; try discriminate; eauto.
Qed.

(** A finite double divided by a finite non-zero double is not NaN. *)
Lemma div_not_nan (x y : float) :
  PrimFloat.is_finite x = true -> Binary64.is_regular y = true ->
  PrimFloat.is_nan (x / y) = false.
Proof.
  intros Hx Hy. apply is_nan_spec_false. rewrite div_spec.
  destruct (regular_spec _ Hy) as [sy [my [ey Ey]]]. rewrite Ey.
  destruct (finite_cases _ Hx) as [[sx Ex] | [sx [mx [ex Ex]]]]; rewrite Ex.
  - discriminate.
  - unfold SF64div. cbn [SFdiv]. unfold SFdiv_core_binary.
    match goal with
    | |- context [Z.div_eucl ?a ?b] =>
        pose proof (Z.div_pos a b) as Hq; unfold Z.div in Hq;
        assert (Ha : (0 <= a)%Z);
          [| destruct (Z.div_eucl a b) as [q r] ]
    end.
    + match goal with
      | |- context [match ?s with Z0 => _ | Zpos _ => _ | Zneg _ => _ end] =>
          destruct s eqn:Es
      end; try lia. apply Z.shiftl_nonneg. lia.
    + apply binary_round_aux_not_nan. apply Hq; [assumption | lia].
Qed.

(** [1 - x] is NaN only when [x] is. *)
Lemma one_minus_not_nan (x : float) :
  PrimFloat.is_nan x = false -> PrimFloat.is_nan (1 - x) = false.
Proof.
  intros Hx. apply is_nan_spec_false. rewrite sub_spec.
  pose proof (not_nan_spec _ Hx) as Hn.
  change (Prim2SF 1) with (S754_finite false 4503599627370496 (-52)).
  destruct (Prim2SF x) as [s | s | | s m e]; try congruence;
    unfold SF64sub; cbn [SFsub]; try discriminate.
  apply binary_normalize_not_nan.
Qed.

Lemma mul_nan_r (x y : float) :
  PrimFloat.is_nan y = true -> PrimFloat.is_nan (x * y) = true.
Proof.
  intros H. apply is_nan_of_spec. rewrite mul_spec, (is_nan_inv _ H).
  destruct (Prim2SF x); reflexivity.
Qed.
End NoNaN.

(** * The maximum drawdown on doubles *)

Section GreatestOnDoubles.
Local Open Scope float_scope.
Variable libm_pow : float -> float -> float.
Variable np_sum : list float -> float.
Local Abbreviation N64 := (Binary64.number libm_pow np_sum).

Lemma maximum_cases (a b : float) :
  PrimFloat.is_nan a = false -> PrimFloat.is_nan b = false ->
  (@maximum float N64 a b = a \/ @maximum float N64 a b = b)
  /\ PrimFloat.leb a (@maximum float N64 a b) = true
  /\ PrimFloat.leb b (@maximum float N64 a b) = true.
Proof.
  intros Ha Hb. unfold maximum.
  change (@leb float N64 b a) with (PrimFloat.leb b a).
  destruct (PrimFloat.leb b a) eqn:E.
  - split; [now left|]. split; [now apply leb_refl | exact E].
  - split; [now right|]. split; [now apply leb_total | now apply leb_refl].
Qed.

(** The running maximum of [f 0 .. f m], none of them NaN, is a greatest
    one of them. *)
Lemma max_upto_greatest (f : nat -> float) (m : nat) :
  (forall i, (i <= m)%nat -> PrimFloat.is_nan (f i) = false) ->
  @greatest_of float N64 (map f (seq 0 (S m))) (@max_upto float N64 f m).
Proof.
  induction m as [|m IH]; intros Hf.
  - cbn [seq map max_upto]. split; [now left|].
    constructor; [|constructor].
    change (PrimFloat.leb (f 0%nat) (f 0%nat) = true). apply leb_refl, Hf. lia.
  - assert (Hf' : forall i, (i <= m)%nat -> PrimFloat.is_nan (f i) = false)
      by (intros i Hi; apply Hf; lia).
    specialize (IH Hf'). destruct IH as [Hin Hall].
    assert (Hp : PrimFloat.is_nan (@max_upto float N64 f m) = false).
    { apply in_map_iff in Hin. destruct Hin as [i [<- Hi]].
      apply in_seq in Hi. apply Hf. lia. }
    assert (Hv : PrimFloat.is_nan (f (S m)) = false) by (apply Hf; lia).
    destruct (maximum_cases _ _ Hp Hv) as [Hc [Hl1 Hl2]].
    rewrite seq_S, map_app. cbn [map max_upto plus].
    set (mx := @maximum float N64 (@max_upto float N64 f m) (f (S m))) in *.
    assert (Hmx : PrimFloat.is_nan mx = false) by (destruct Hc as [-> | ->]; assumption).
    split.
    + apply in_or_app. destruct Hc as [-> | ->]; [now left | right; now left].
    + apply Forall_app. split.
      * apply Forall_forall. intros y Hy.
        change (PrimFloat.leb y mx = true).
        rewrite Forall_forall in Hall. specialize (Hall y Hy).
        change (PrimFloat.leb y (@max_upto float N64 f m) = true) in Hall.
        apply leb_trans with (@max_upto float N64 f m); try assumption.
        apply in_map_iff in Hy. destruct Hy as [i [<- Hi]].
        apply in_seq in Hi. apply Hf. lia.
      * constructor; [exact Hl2 | constructor].
Qed.

Lemma peak_at_max_upto (returns : list float) (i : nat) :
  @peak_at float N64 returns i
  = @max_upto float N64 (@value_at float N64 returns) i.
Proof. induction i as [|i IH]; [reflexivity|]. cbn [peak_at max_upto]. now rewrite IH. Qed.

Lemma count_positive_ext (f g : nat -> float) (n : nat) :
  (forall i, (i < n)%nat -> f i = g i) ->
  @count_positive float N64 f n = @count_positive float N64 g n.
Proof.
  induction n as [|n IH]; intros H; [reflexivity|].
  cbn [count_positive]. rewrite IH by (intros i Hi; apply H; lia).
  rewrite (H n) by lia. reflexivity.
Qed.

(** Above a positive double there are only doubles that are not zero. *)
Lemma above_positive (v p : float) :
  PrimFloat.is_nan v = false -> PrimFloat.is_nan p = false ->
  PrimFloat.ltb 0 v = true -> PrimFloat.leb v p = true ->
  PrimFloat.is_zero p = false.
Proof.
  intros Hv Hp H0 Hle.
  apply (ltb_place 0 v) in H0; [|reflexivity | assumption].
  apply leb_place in Hle; try assumption.
  assert (Hb : before (place (Prim2SF 0)) (place (Prim2SF p))).
  { destruct Hle as [Hle | Hle]; [eapply before_trans; eassumption|].
    now rewrite <- Hle. }
  destruct (PrimFloat.is_zero p) eqn:E; [|reflexivity].
  unfold PrimFloat.is_zero in E.
  apply eqb_place in E; [|assumption | reflexivity].
  exfalso. apply (before_irrefl Hb). now symmetry.
Qed.

Section Path.
Variable returns : list float.
Hypothesis Hne : returns <> [].
Hypothesis Hfin :
  forallb PrimFloat.is_finite
    (@values_upto float N64 returns (length returns - 1)) = true.
Hypothesis Hpos : PrimFloat.ltb 0 (@value_at float N64 returns 0) = true.

Lemma value_finite (i : nat) :
  (i < length returns)%nat ->
  PrimFloat.is_finite (@value_at float N64 returns i) = true.
Proof.
  intros Hi. rewrite forallb_forall in Hfin. apply Hfin.
  unfold values_upto. apply in_map. apply in_seq. lia.
Qed.

Lemma value_not_nan (i : nat) :
  (i < length returns)%nat ->
  PrimFloat.is_nan (@value_at float N64 returns i) = false.
Proof. intros Hi. now apply finite_not_nan, value_finite. Qed.

Lemma factor_not_nan (i : nat) :
  (i < length returns)%nat ->
  PrimFloat.is_nan (@factor float N64 returns i) = false.
Proof.
  intros Hi. destruct i as [|j]; [exact (value_not_nan Hi)|].
  pose proof (value_not_nan Hi) as Hv. cbn [value_at] in Hv.
  destruct (PrimFloat.is_nan (@factor float N64 returns (S j))) eqn:E;
    [|reflexivity].
  change (PrimFloat.is_nan
            (@value_at float N64 returns j * @factor float N64 returns (S j))
          = false) in Hv.
  rewrite (mul_nan_r _ _ E) in Hv. discriminate.
Qed.

Lemma peak_greatest (i : nat) :
  (i < length returns)%nat ->
  @greatest_of float N64 (@values_upto float N64 returns i)
    (@peak_at float N64 returns i).
Proof.
  intros Hi. rewrite peak_at_max_upto. apply max_upto_greatest.
  intros j Hj. apply value_not_nan. lia.
Qed.

Lemma greatest_regular (i : nat) (p : float) :
  (i < length returns)%nat ->
  @greatest_of float N64 (@values_upto float N64 returns i) p ->
  Binary64.is_regular p = true.
Proof.
  intros Hi [Hin Hall]. unfold Binary64.is_regular.
  assert (Hf : PrimFloat.is_finite p = true).
  { unfold values_upto in Hin. apply in_map_iff in Hin.
    destruct Hin as [j [<- Hj]]. apply in_seq in Hj. apply value_finite. lia. }
  rewrite Hf. cbn [andb]. apply negb_true_iff.
  apply (@above_positive (@value_at float N64 returns 0) p).
  - apply value_not_nan. lia.
  - now apply finite_not_nan.
  - exact Hpos.
  - rewrite Forall_forall in Hall. apply (Hall (@value_at float N64 returns 0)).
    unfold values_upto. apply in_map, in_seq. lia.
Qed.

Lemma dd_at_not_nan (i : nat) :
  (i < length returns)%nat ->
  PrimFloat.is_nan (@dd_at float N64 returns i) = false.
Proof.
  intros Hi. unfold dd_at.
  change (PrimFloat.is_nan
            (1 - @value_at float N64 returns i / @peak_at float N64 returns i)
          = false).
  apply one_minus_not_nan, div_not_nan.
  - now apply value_finite.
  - apply (@greatest_regular i); [assumption | now apply peak_greatest].
Qed.

Lemma path_defined :
  @defined_upto float N64 returns (length returns) = true.
Proof.
  unfold defined_upto. apply forallb_forall. intros i Hi.
  apply in_seq in Hi. unfold notna.
  change (@is_nan float N64) with PrimFloat.is_nan.
  rewrite factor_not_nan, value_not_nan, dd_at_not_nan by lia. reflexivity.
Qed.
End Path.
End GreatestOnDoubles.

Section DrawdownsOnDoubles.
Local Open Scope float_scope.
Variable libm_pow : float -> float -> float.
Variable np_sum : list float -> float.
Local Abbreviation N64 := (Binary64.number libm_pow np_sum).

(** C4.  On doubles, for a series whose cumulative values [value_i] (the
    product of the [1 + r_j] for [j <= i]) are all finite and start
    positive: the first component of [maxDrawdown] is a greatest one of
    the drawdowns [dd_i = 1 - value_i / peak_i], with [peak_i] a greatest
    one of [value_0 .. value_i], and the second component is the number
    of indices with [dd_i > 0] divided by [n]. *)
Theorem maxDrawdown_amount_and_proportion (returns : list float) :
  returns <> [] ->
  forallb PrimFloat.is_finite
    (@values_upto float N64 returns (length returns - 1)) = true ->
  PrimFloat.ltb 0 (@value_at float N64 returns 0) = true ->
  exists (dds : list float) (dd : float) (dur : Z),
    length dds = length returns
    /\ (forall i, (i < length returns)%nat ->
          @drawdown_at float N64 returns i (nth i dds PrimFloat.nan))
    /\ @maxDrawdown float N64 returns
       = Ok (dd,
             Binary64.float_of_int
               (@count_positive float N64
                  (fun i => nth i dds PrimFloat.nan) (length returns))
             / Binary64.float_of_int (len returns),
             dur)
    /\ @greatest_of float N64 dds dd.
Proof.
  intros Hne Hfin Hpos.
  pose proof (path_defined Hfin Hpos) as Hdef.
  destruct (@maxDrawdown_by_index float N64 returns Hne Hdef)
    as [dur Hmd].
  set (n := length returns) in *.
  assert (Hn : (0 < n)%nat) by (unfold n; destruct returns; [congruence | simpl; lia]).
  exists (map (@dd_at float N64 returns) (seq 0 n)).
  exists (@max_upto float N64 (@dd_at float N64 returns) (n - 1)), dur.
  assert (Hnth : forall i, (i < n)%nat ->
            nth i (map (@dd_at float N64 returns) (seq 0 n)) PrimFloat.nan
            = @dd_at float N64 returns i).
  { intros i Hi. now apply (@nth_map_seq float). }
  split; [now rewrite length_map, length_seq|]. split; [|split].
  - intros i Hi. rewrite Hnth by assumption.
    exists (@peak_at float N64 returns i). split; [|reflexivity].
    now apply peak_greatest.
  - rewrite Hmd. do 3 f_equal.
    change (@div float N64) with PrimFloat.div.
    change (@of_int float N64) with Binary64.float_of_int.
    do 2 f_equal. apply count_positive_ext. intros i Hi. now rewrite Hnth.
  - replace (seq 0 n) with (seq 0 (S (n - 1))) by (f_equal; lia).
    apply max_upto_greatest. intros i Hi.
    apply (dd_at_not_nan Hfin Hpos). fold n. lia.
Qed.

(** A fold of [maximum] over doubles none of which is NaN ends on one of
    them, not NaN, that is [>=] the starting value and every entry. *)
Lemma fold_maximum_greatest (xs : list float) :
  forall acc,
    PrimFloat.is_nan acc = false ->
    Forall (fun x => PrimFloat.is_nan x = false) xs ->
    let r := fold_left (@maximum float N64) xs acc in
    In r (acc :: xs)
    /\ PrimFloat.is_nan r = false
    /\ PrimFloat.leb acc r = true
    /\ Forall (fun x => PrimFloat.leb x r = true) xs.
Proof.
  induction xs as [|x xs IH]; intros acc Hacc Hxs r.
  - subst r. cbn [fold_left]. split; [now left|]. split; [assumption|].
    split; [now apply leb_refl | constructor].
  - inversion Hxs as [|? ? Hx Hxs']; subst x0 l.
    destruct (maximum_cases libm_pow np_sum _ _ Hacc Hx) as [Hc [Hl1 Hl2]].
    set (mx := @maximum float N64 acc x) in *.
    assert (Hmx : PrimFloat.is_nan mx = false)
      by (destruct Hc as [-> | ->]; assumption).
    destruct (IH mx Hmx Hxs') as [Hin [Hr [Hle Hall]]].
    change (fold_left (@maximum float N64) xs mx) with r in *.
    split; [|split; [assumption|split]].
    + destruct Hin as [Hin | Hin]; [|right; now right].
      rewrite <- Hin. destruct Hc as [-> | ->]; [now left | right; now left].
    + now apply leb_trans with mx.
    + constructor; [now apply leb_trans with mx | assumption].
Qed.

Lemma filter_notna_not_nan (s : list float) :
  Forall (fun x => PrimFloat.is_nan x = false) (filter (@notna float N64) s).
Proof.
  apply Forall_forall. intros x Hx. apply filter_In in Hx.
  destruct Hx as [_ Hx]. unfold notna in Hx.
  now apply negb_true_iff in Hx.
Qed.

End DrawdownsOnDoubles.

Section MoreOnDoubles.
Local Open Scope float_scope.
Variable libm_pow : float -> float -> float.
Variable np_sum : list float -> float.
Local Abbreviation N64 := (Binary64.number libm_pow np_sum).

(** ** Appended returns *)

(** On doubles: when some drawdown of a series is not NaN, appending
    returns to the series can only raise its maximum drawdown. *)
Theorem maxDrawdown_grows_with_appended_returns (a b : list float) :
  existsb (@notna float N64) (@ddSeries float N64 a) = true ->
  exists dd dd' p p' dur dur',
    @maxDrawdown float N64 a = Ok (dd, p, dur)
    /\ @maxDrawdown float N64 (a ++ b) = Ok (dd', p', dur')
    /\ PrimFloat.leb dd dd' = true.
Proof.
  intros Hex.
  assert (Hne : a <> []) by (intros ->; discriminate).
  assert (Hne' : a ++ b <> []) by (destruct a; [congruence | discriminate]).
  rewrite (@maxDrawdown_nonempty float N64 a Hne).
  rewrite (@maxDrawdown_nonempty float N64 (a ++ b) Hne').
  do 6 eexists. split; [reflexivity|]. split; [reflexivity|].
  destruct (@ddSeries_app float N64 a b) as [tl Htl]. rewrite Htl.
  unfold Series_max. rewrite filter_app.
  pose proof (filter_notna_not_nan libm_pow np_sum (@ddSeries float N64 a)) as Hl.
  pose proof (filter_notna_not_nan libm_pow np_sum tl) as Ht.
  destruct (filter (@notna float N64) (@ddSeries float N64 a)) as [|x xs] eqn:E.
  - exfalso. apply existsb_exists in Hex. destruct Hex as [y [Hy Hy']].
    assert (Hin : In y (filter (@notna float N64) (@ddSeries float N64 a)))
      by (apply filter_In; now split).
    rewrite E in Hin. contradiction.
  - inversion Hl as [|? ? Hx Hxs]; subst.
    cbn [app]. rewrite fold_left_app.
    destruct (@fold_maximum_greatest libm_pow np_sum xs x Hx Hxs) as [_ [Hr _]].
    destruct (@fold_maximum_greatest libm_pow np_sum _ _ Hr Ht) as [_ [_ [Hle _]]].
    exact Hle.
Qed.

(** ** The three components together *)

Lemma leb_nan_r (x y : float) :
  PrimFloat.is_nan y = true -> PrimFloat.leb x y = false.
Proof.
  intros H. rewrite leb_spec, (is_nan_inv _ H).
  unfold SFleb, SFcompare. destruct (Prim2SF x); reflexivity.
Qed.

Lemma nonneg_not_nan (d : float) :
  PrimFloat.leb 0 d = true -> PrimFloat.is_nan d = false.
Proof.
  intros H. destruct (PrimFloat.is_nan d) eqn:E; [|reflexivity].
  rewrite (leb_nan_r 0 _ E) in H. discriminate.
Qed.

(** A double that is [>= 0] is either [== 0] or [> 0]. *)
Lemma nonneg_cases (d : float) :
  PrimFloat.leb 0 d = true ->
  negb (PrimFloat.eqb d 0) = PrimFloat.ltb 0 d.
Proof.
  intros H. pose proof (nonneg_not_nan H) as Hd.
  apply leb_place in H; [|reflexivity | assumption].
  destruct (PrimFloat.ltb 0 d) eqn:El.
  - apply ltb_place in El; [|reflexivity | assumption].
    destruct (PrimFloat.eqb d 0) eqn:Ee; [|reflexivity].
    apply eqb_place in Ee; [|assumption | reflexivity].
    exfalso. apply (before_irrefl El). now symmetry.
  - destruct H as [H | H].
    + apply ltb_place in H; [|reflexivity | assumption]. congruence.
    + assert (Ee : PrimFloat.eqb d 0 = true)
        by (apply eqb_place; [assumption | reflexivity | now symmetry]).
      now rewrite Ee.
Qed.

Lemma len_zero (A : Type) (s : list A) : len s = 0%Z <-> s = [].
Proof.
  unfold len. destruct s; simpl; split; try congruence; try lia; discriminate.
Qed.

Lemma filter_nil_iff (A : Type) (p : A -> bool) (l : list A) :
  filter p l = [] <-> Forall (fun x => p x = false) l.
Proof.
  induction l as [|x l IH]; [split; [constructor | reflexivity]|].
  cbn [filter]. destruct (p x) eqn:E.
  - split; [discriminate|]. intros H. inversion H; subst. congruence.
  - rewrite IH. split; [now constructor | intros H; now inversion H].
Qed.

(** On doubles: when no drawdown is negative or NaN, the periods counted
    as time in drawdown are those the duration fold counts, the duration
    is at most their number, and the three components vanish together:
    the maximum drawdown is [== 0] exactly when no period is in drawdown,
    which is exactly when the duration is 0. *)
Theorem maxDrawdown_components_vanish_together (returns : list float) :
  returns <> [] ->
  forallb (PrimFloat.leb 0) (@ddSeries float N64 returns) = true ->
  exists dd count dur,
    @maxDrawdown float N64 returns
    = Ok (dd,
          Binary64.float_of_int count / Binary64.float_of_int (len returns),
          dur)
    /\ (0 <= dur <= count)%Z
    /\ (count <= len returns)%Z
    /\ (PrimFloat.eqb dd 0 = true <-> count = 0%Z)
    /\ (count = 0%Z <-> dur = 0%Z).
Proof.
  intros Hne Hnn.
  set (dds := @ddSeries float N64 returns) in *.
  rewrite forallb_forall in Hnn.
  assert (Hnz : @not_zero float N64 dds = @Series_gt0 float N64 dds).
  { unfold not_zero, Series_gt0. apply filter_ext_in. intros d Hd.
    apply (@nonneg_cases d). now apply Hnn. }
  assert (Hnan : Forall (fun d => PrimFloat.is_nan d = false) dds).
  { apply Forall_forall. intros d Hd. now apply nonneg_not_nan, Hnn. }
  rewrite (@maxDrawdown_longest_run float N64 returns Hne). fold dds.
  assert (Hl : len dds = len returns).
  { unfold len, dds. now rewrite ddSeries_length. }
  rewrite Hl.
  exists (@Series_max float N64 dds), (len (@Series_gt0 float N64 dds)),
         (@longest_run float N64 dds).
  split; [reflexivity|].
  pose proof (@leading_run_nonneg float N64 dds) as H1.
  pose proof (@leading_le_longest float N64 dds) as H2.
  pose proof (@longest_run_le_not_zero float N64 dds) as H3.
  rewrite Hnz in H3.
  assert (Hcount : len (@Series_gt0 float N64 dds) = 0%Z
                   <-> Forall (fun d => PrimFloat.eqb d 0 = true) dds).
  { rewrite len_zero, <- Hnz. unfold not_zero. rewrite filter_nil_iff.
    split; intros H; (eapply Forall_impl; [|exact H]); cbn; intros d Hd.
    - now apply negb_false_iff in Hd.
    - change (@eqb float N64 d (@zero float N64)) with (PrimFloat.eqb d 0).
      now rewrite Hd. }
  split; [lia|]. split.
  { rewrite <- Hl. unfold len, Series_gt0.
    pose proof (filter_length_le (fun x => @ltb float N64 (@zero float N64) x) dds).
    lia. }
  split.
  - rewrite Hcount. unfold Series_max.
    rewrite (@filter_all float (@notna float N64) dds).
    2:{ eapply Forall_impl; [|exact Hnan]. cbn. intros d Hd.
        unfold notna. change (@is_nan float N64 d) with (PrimFloat.is_nan d).
        now rewrite Hd. }
    destruct dds as [|x xs] eqn:E.
    { exfalso. apply (@ddSeries_nonempty float N64 returns Hne). exact E. }
    inversion Hnan as [|? ? Hx Hxs]; subst.
    destruct (@fold_maximum_greatest libm_pow np_sum xs x Hx Hxs)
      as [Hin [Hr [Hle Hall]]].
    set (r := fold_left (@maximum float N64) xs x) in *.
    split.
    + intros Hz. apply eqb_place in Hz; [|assumption | reflexivity].
      assert (Hall' : Forall (fun d => PrimFloat.leb d r = true) (x :: xs))
        by now constructor.
      apply Forall_forall. intros d Hd.
      rewrite Forall_forall in Hall'. specialize (Hall' d Hd).
      pose proof (Hnn d Hd) as Hd0.
      pose proof (nonneg_not_nan Hd0) as Hdn.
      apply leb_place in Hall'; [|assumption | assumption].
      apply leb_place in Hd0; [|reflexivity | assumption].
      apply eqb_place; [assumption | reflexivity |].
      rewrite Hz in Hall'.
      destruct Hall' as [Ha | Ha]; [|assumption].
      destruct Hd0 as [Hb | Hb]; [|now symmetry].
      exfalso. exact (before_asym Ha Hb).
    + intros Hz. rewrite Forall_forall in Hz. now apply Hz.
  - rewrite Hcount. symmetry. apply (@longest_run_zero float N64).
Qed.

(** ** A series that spans one year *)

Lemma length_over_length (n : Z) :
  (0 < n < 2 ^ 53)%Z ->
  Binary64.float_of_int n / Binary64.float_of_int n = 1.
Proof.
  intros Hn. destruct n as [|p|p]; try lia.
  destruct (@float_of_small_int p) as [m [e [E Hb]]]; [lia|].
  apply Prim2SF_inj. rewrite div_spec. unfold Binary64.float_of_int.
  rewrite E, Prim2SF_SF2Prim by exact Hb. apply SFdiv_self.
Qed.

(** On doubles, for a libm [pow] that returns its base at the exponent
    [1.0]: when [periods] is the length of the series (below [2^53]) the
    exponent [periods / n] is exactly [1.0] and [CAGR] is the compounded
    product less 1, the product running over the returns whose
    [r + 1.0] is not NaN. *)
Theorem CAGR_over_the_whole_period (returns : list float) :
  let product :=
    @growth float N64
      (filter (fun r => @notna float N64 (r + 1)) returns) in
  returns <> [] ->
  (len returns < 2 ^ 53)%Z ->
  libm_pow product 1 = product ->
  @CAGR float N64 returns (len returns) = Ok (product - 1).
Proof.
  intros product Hne Hlen Hpow.
  unfold CAGR, int_truediv. rewrite (len_nonzero Hne). cbn [bind].
  unfold Series_product, Series_add.
  rewrite filter_map_commute, (@fold_left_map_factors float N64).
  f_equal.
  change (libm_pow product
            (Binary64.float_of_int (len returns)
             / Binary64.float_of_int (len returns)) - 1 = product - 1).
  rewrite length_over_length, Hpow; [reflexivity|].
  split; [|assumption]. unfold len. destruct returns; [congruence | simpl; lia].
Qed.
End MoreOnDoubles.

(** * The volatility on doubles *)

Section VolatilityOnDoubles.
Local Open Scope float_scope.
Variable libm_pow : float -> float -> float.
Variable np_sum : list float -> float.
Local Abbreviation N64 := (Binary64.number libm_pow np_sum).

(** Rounding does not look at the sign. *)
Lemma binary_round_aux_opp (s : bool) (m e : Z) (l : location) :
  binary_round_aux prec emax (negb s) m e l
  = SFopp (binary_round_aux prec emax s m e l).
Proof.
  unfold binary_round_aux.
  destruct (shr_fexp prec emax m e l) as [mrs' e'].
  destruct (shr_fexp prec emax
              (round_nearest_even (shr_m mrs') (loc_of_shr_record mrs'))
              e' loc_Exact) as [mrs'' e''].
  destruct (shr_m mrs'') as [|p|p]; try reflexivity.
  destruct (e'' <=? emax - prec)%Z; reflexivity.
Qed.

Lemma binary_round_opp (s : bool) (m : positive) (e : Z) :
  binary_round prec emax (negb s) m e = SFopp (binary_round prec emax s m e).
Proof.
  unfold binary_round.
  destruct (shl_align m e (fexp prec emax (Z.pos (digits2_pos m) + e))) as [mz ez].
  apply binary_round_aux_opp.
Qed.

Lemma binary_normalize_opp (z e : Z) :
  binary_normalize prec emax (- z) e false
  = SFopp (binary_normalize prec emax z e false)
  \/ (binary_normalize prec emax z e false = S754_zero false
      /\ binary_normalize prec emax (- z) e false = S754_zero false).
Proof.
  destruct z as [|p|p]; cbn [Z.opp binary_normalize].
  - right. split; reflexivity.
  - left. apply (binary_round_opp false).
  - left. apply (binary_round_opp true).
Qed.

(** [y - x] is the opposite of [x - y], or both are zeros. *)
Lemma SFsub_swap (x y : spec_float) :
  SF64sub y x = SFopp (SF64sub x y)
  \/ exists s s', SF64sub x y = S754_zero s /\ SF64sub y x = S754_zero s'.
Proof.
  unfold SF64sub.
  destruct x as [sx | sx | | sx mx ex], y as [sy | sy | | sy my ey];
    cbn [SFsub SFopp];
    try (left; reflexivity);
    try solve [destruct sx, sy;
               ((left; reflexivity)
                || (right; do 2 eexists; split; reflexivity))].
  rewrite (Z.min_comm ey ex).
  set (ez := Z.min ex ey).
  set (X := cond_Zopp sx (Z.pos (fst (shl_align mx ex ez)))).
  set (Y := cond_Zopp sy (Z.pos (fst (shl_align my ey ez)))).
  replace (Y - X)%Z with (- (X - Y))%Z by lia.
  destruct (binary_normalize_opp (X - Y) ez) as [H | [H1 H2]].
  - now left.
  - right. eauto.
Qed.

Lemma SFmul_opp (a : spec_float) :
  SF64mul (SFopp a) (SFopp a) = SF64mul a a.
Proof.
  unfold SF64mul. destruct a as [s | s | | s m e]; cbn [SFopp SFmul];
    try reflexivity; destruct s; reflexivity.
Qed.

(** The square of a difference does not depend on the order of its
    operands. *)
Lemma sq_sub_swap (x y : float) :
  (x - y) * (x - y) = (y - x) * (y - x).
Proof.
  apply Prim2SF_inj. rewrite !mul_spec, !sub_spec.
  destruct (SFsub_swap (Prim2SF x) (Prim2SF y)) as [H | [s [s' [H1 H2]]]].
  - rewrite H. symmetry. apply SFmul_opp.
  - rewrite H1, H2. unfold SF64mul. cbn [SFmul]. destruct s, s'; reflexivity.
Qed.

Lemma map_id_in (A : Type) (f : A -> A) (l : list A) :
  (forall x, In x l -> f x = x) -> map f l = l.
Proof.
  intros H. rewrite <- (map_id l) at 2. now apply map_ext_in.
Qed.

(** C2.  On doubles, for a series of [n >= 2] numbers (no NaN) and a
    number of periods [>= 0]: [annualVolatility] is the sample standard
    deviation with [n - 1] degrees of freedom, each operation rounded and
    the sums taken by numpy, times [periods ** 0.5] as libm's [pow] gives
    it; where that [pow] agrees with the square root, it is the standard
    deviation times the square root of [periods]. *)
Theorem annualVolatility_is_scaled_sample_std
    (returns : list float) (periods : Z) :
  (2 <= length returns)%nat ->
  Forall (fun r => PrimFloat.is_nan r = false) returns ->
  (0 <= periods)%Z ->
  @annualVolatility float N64 returns periods
  = @sample_std float N64 returns
    * libm_pow (Binary64.float_of_int periods) 0.5
  /\ (libm_pow (Binary64.float_of_int periods) 0.5
      = PrimFloat.sqrt (Binary64.float_of_int periods) ->
      @annualVolatility float N64 returns periods
      = @sample_std float N64 returns
        * PrimFloat.sqrt (Binary64.float_of_int periods)).
Proof.
  intros Hn Hnum _.
  assert (H : @annualVolatility float N64 returns periods
              = @sample_std float N64 returns
                * libm_pow (Binary64.float_of_int periods) 0.5).
  { unfold annualVolatility.
    change (@mul float N64) with PrimFloat.mul.
    change (@pow float N64 (@of_int float N64 periods) (@half float N64))
      with (libm_pow (Binary64.float_of_int periods) 0.5).
    f_equal. unfold Series_std, sample_std, mean.
    assert (Hf : filter (@notna float N64) returns = returns).
    { apply filter_all. eapply Forall_impl; [|exact Hnum]. cbn. intros r Hr.
      unfold notna. change (@is_nan float N64 r) with (PrimFloat.is_nan r).
      now rewrite Hr. }
    rewrite Hf.
    destruct (Z.leb_spec (len returns - 1) 0) as [Hle|Hgt];
      [unfold len in Hle; lia|].
    rewrite Forall_forall in Hnum.
    assert (Hv : map (fun x => if @is_nan float N64 x then @zero float N64 else x)
                   returns = returns).
    { apply map_id_in. intros x Hx.
      change (@is_nan float N64 x) with (PrimFloat.is_nan x).
      now rewrite (Hnum x Hx). }
    rewrite Hv. do 3 f_equal. apply map_ext_in. intros x Hx.
    change (@is_nan float N64 x) with (PrimFloat.is_nan x).
    rewrite (Hnum x Hx). apply sq_sub_swap. }
  split; [exact H|]. intros Hpow. now rewrite H, Hpow.
Qed.
End VolatilityOnDoubles.

(** * Runs on concrete series *)

Section Runs.
Import Exact ExactFacts.

(** [CAGR] of the example series over 3 periods a year, on doubles. *)
Lemma CAGR_run :
  @CAGR float Binary64.doubles Binary64.example 3
  = Ok (@sub float Binary64.doubles
          (@pow float Binary64.doubles
             (@growth float Binary64.doubles Binary64.example)
             (@div float Binary64.doubles
                (@of_int float Binary64.doubles 3)
                (@of_int float Binary64.doubles (len Binary64.example))))
          (@one float Binary64.doubles)).
Proof.
  apply (@CAGR_compounds_and_annualizes float Binary64.doubles).
  - discriminate.
  - repeat constructor.
Defined.

(** The Sharpe ratio of the example series, on doubles. *)
Lemma sharpeRatio_run :
  exists c,
    @CAGR float Binary64.doubles Binary64.example 3 = Ok c
    /\ @sharpeRatio float Binary64.doubles Binary64.example 3 0%float
       = Ok (PrimFloat.div (PrimFloat.sub c 0)
               (@annualVolatility float Binary64.doubles Binary64.example 3)).
Proof.
  apply (@sharpeRatio_is_excess_growth_over_volatility float Binary64.doubles).
  discriminate.
Defined.

(** The duration of the example series, on doubles. *)
Lemma maxDrawdown_duration_run :
  exists dd ddProportion,
    @maxDrawdown float Binary64.doubles Binary64.example
    = Ok (dd, ddProportion,
          @max_count float Binary64.doubles
            (@ddSeries float Binary64.doubles Binary64.example) 3).
Proof.
  apply (@maxDrawdown_duration_is_the_fold float Binary64.doubles Binary64.example).
  discriminate.
Defined.

(** [CAGR] of the empty series raises. *)
Lemma CAGR_of_empty_series_raises :
  @CAGR float Binary64.doubles [] default_periods = Raise ZeroDivisionError.
Proof. reflexivity. Qed.

(** A constant series of doubles with no volatility: [CAGR] of the empty
    series raises, and its Sharpe ratio is NaN or an infinity. *)
Lemma degenerate_run :
  @CAGR float Binary64.doubles [] 3 = Raise ZeroDivisionError
  /\ exists s,
       @sharpeRatio float Binary64.doubles [0.5; 0.5; 0.5]%float 3 0%float
       = Ok s
       /\ Binary64.is_special s = true.
Proof.
  apply (@degenerate_inputs Binary64.sample_pow Binary64.sample_sum [0.5; 0.5; 0.5]%float 3 0%float).
  - discriminate.
  - vm_compute. reflexivity.
Defined.
(** A rising path on doubles: the doubles nearest to [0.01], [0] and
    [0.02]. *)
Lemma rising_path_on_doubles_run :
  @maxDrawdown float Binary64.doubles
    [0x1.47ae147ae147bp-7; 0; 0x1.47ae147ae147bp-6]%float
  = Ok (0%float, 0%float, 0%Z).
Proof.
  apply (@rising_path_on_doubles Binary64.sample_pow Binary64.sample_sum).
  - discriminate.
  - unfold len. simpl. lia.
  - vm_compute. reflexivity.
  - vm_compute. reflexivity.
Defined.

(** A gain of a half followed by a total loss on doubles, over 2 periods a
    year (the exponent is [2 / 2], at which [sample_pow] returns its
    base). *)
Lemma total_loss_on_doubles_run :
  PrimFloat.is_zero
    (@Series_product float Binary64.doubles
       (@Series_add float Binary64.doubles [0.5; -1]%float 1%float)) = true
  /\ @CAGR float Binary64.doubles [0.5; -1]%float 2 = Ok (-1)%float.
Proof.
  apply (@total_loss_on_doubles Binary64.sample_pow Binary64.sample_sum [0.5; -1]%float 2).
  - right. left. reflexivity.
  - vm_compute. reflexivity.
  - vm_compute. reflexivity.
  - intros z Hz. vm_compute Binary64.sample_pow.
    change (PrimFloat.is_zero z = true). exact Hz.
Defined.

(** A series of doubles that starts with a NaN, as a series of
    percentage changes does: the product runs over the two other
    returns, the exponent divides by 3. *)
Lemma CAGR_skips_nan_run :
  @CAGR float Binary64.doubles [PrimFloat.nan; 0.5; 0.25]%float 3
  = Ok (PrimFloat.sub
          (Binary64.sample_pow
             (@growth float Binary64.doubles [0.5; 0.25]%float)
             (PrimFloat.div (Binary64.float_of_int 3)
                (Binary64.float_of_int 3)))
          1%float).
Proof.
  apply (@CAGR_skips_nan_and_counts_it float Binary64.doubles
           [PrimFloat.nan; 0.5; 0.25]%float 3).
  discriminate.
Defined.

(** The longest run of the example series on doubles. *)
Lemma longest_run_run :
  exists dd ddProportion,
    @maxDrawdown float Binary64.doubles Binary64.example
    = Ok (dd, ddProportion,
          @longest_run float Binary64.doubles
            (@ddSeries float Binary64.doubles Binary64.example)).
Proof.
  apply (@maxDrawdown_duration_is_longest_run float Binary64.doubles
           Binary64.example).
  discriminate.
Defined.

(** The range of the duration of the example series on doubles. *)
Lemma duration_range_run :
  exists dd ddProportion dur,
    @maxDrawdown float Binary64.doubles Binary64.example
    = Ok (dd, ddProportion, dur)
    /\ (0 <= dur
        <= len (@not_zero float Binary64.doubles
                  (@ddSeries float Binary64.doubles Binary64.example)))%Z
    /\ (len (@not_zero float Binary64.doubles
               (@ddSeries float Binary64.doubles Binary64.example))
        <= len Binary64.example)%Z
    /\ (dur = 0%Z
        <-> Forall (fun d => PrimFloat.eqb d 0 = true)
              (@ddSeries float Binary64.doubles Binary64.example)).
Proof.
  apply (@maxDrawdown_duration_range float Binary64.doubles Binary64.example).
  discriminate.
Defined.

(** A single return on doubles. *)
Lemma too_few_returns_run :
  PrimFloat.is_nan
    (@annualVolatility float Binary64.doubles [0x1.999999999999ap-4]%float 252)
  = true
  /\ exists s,
       @sharpeRatio float Binary64.doubles [0x1.999999999999ap-4]%float 252 0%float
       = Ok s
       /\ PrimFloat.is_nan s = true.
Proof.
  apply (@too_few_returns_on_doubles Binary64.sample_pow Binary64.sample_sum
           [0x1.999999999999ap-4]%float 252 0%float).
  - discriminate.
  - simpl. lia.
Defined.

(** Two returns of the double nearest to [1e308]: the product overflows
    to infinity and the second drawdown is [1 - inf / inf], a NaN. *)
Lemma nan_drawdown_run :
  @maxDrawdown float Binary64.doubles
    [0x1.1ccf385ebc8a0p+1023; 0x1.1ccf385ebc8a0p+1023]%float
  = Ok (0%float, 0%float, 1%Z)
  /\ (1 <= 1)%Z.
Proof.
  apply (@nan_drawdown_counts_towards_duration Binary64.sample_pow Binary64.sample_sum
           [0x1.1ccf385ebc8a0p+1023; 0x1.1ccf385ebc8a0p+1023]%float).
  vm_compute. reflexivity.
Defined.

(** The volatility of the doubles nearest to [0.01] and [0.03] over 252
    periods a year. *)
Lemma annualVolatility_run :
  @annualVolatility float Binary64.doubles
    [0x1.47ae147ae147bp-7; 0x1.eb851eb851eb8p-6]%float 252
  = PrimFloat.mul
      (@sample_std float Binary64.doubles
         [0x1.47ae147ae147bp-7; 0x1.eb851eb851eb8p-6]%float)
      (Binary64.sample_pow (Binary64.float_of_int 252) 0.5%float)
  /\ (Binary64.sample_pow (Binary64.float_of_int 252) 0.5%float
      = PrimFloat.sqrt (Binary64.float_of_int 252) ->
      @annualVolatility float Binary64.doubles
        [0x1.47ae147ae147bp-7; 0x1.eb851eb851eb8p-6]%float 252
      = PrimFloat.mul
          (@sample_std float Binary64.doubles
             [0x1.47ae147ae147bp-7; 0x1.eb851eb851eb8p-6]%float)
          (PrimFloat.sqrt (Binary64.float_of_int 252))).
Proof.
  apply (@annualVolatility_is_scaled_sample_std
           Binary64.sample_pow Binary64.sample_sum).
  - simpl. lia.
  - repeat constructor.
  - lia.
Defined.

(** The first two components of [maxDrawdown] of the example series, on
    doubles. *)
Lemma maxDrawdown_amount_run :
  exists (dds : list float) (dd : float) (dur : Z),
    length dds = length Binary64.example
    /\ (forall i, (i < length Binary64.example)%nat ->
          @drawdown_at float Binary64.doubles Binary64.example i
            (nth i dds PrimFloat.nan))
    /\ @maxDrawdown float Binary64.doubles Binary64.example
       = Ok (dd,
             PrimFloat.div
               (Binary64.float_of_int
                  (@count_positive float Binary64.doubles
                     (fun i => nth i dds PrimFloat.nan)
                     (length Binary64.example)))
               (Binary64.float_of_int (len Binary64.example)),
             dur)
    /\ @greatest_of float Binary64.doubles dds dd.
Proof.
  apply (@maxDrawdown_amount_and_proportion
           Binary64.sample_pow Binary64.sample_sum Binary64.example).
  - discriminate.
  - vm_compute. reflexivity.
  - vm_compute. reflexivity.
Defined.

(** Overflow on doubles.  Two returns of the double nearest to [1e308] are
    both [>= 0], yet their cumulative product overflows to infinity: the
    second drawdown is [1 - inf / inf], a NaN, which [max] skips and
    [ddSeries > 0] does not select, but which is not [== 0] either, so the
    duration fold counts it. *)
Lemma overflowing_path_on_doubles :
  forallb (PrimFloat.leb 0)
    [0x1.1ccf385ebc8a0p+1023; 0x1.1ccf385ebc8a0p+1023]%float = true
  /\ @ddSeries float Binary64.doubles
       [0x1.1ccf385ebc8a0p+1023; 0x1.1ccf385ebc8a0p+1023]%float
     = [0%float; PrimFloat.nan]
  /\ @maxDrawdown float Binary64.doubles
       [0x1.1ccf385ebc8a0p+1023; 0x1.1ccf385ebc8a0p+1023]%float
     = Ok (0%float, 0%float, 1%Z).
Proof. repeat split; vm_compute; reflexivity. Qed.

(** A total loss after an overflow.  The series holds a return of exactly
    [-1.0] and [periods / n] is [3 / 3 > 0], yet the product of the
    [1 + r_i] is [inf * 0.0], a NaN and not 0, and [CAGR] is NaN. *)
Lemma total_loss_after_overflow :
  In (-1)%float [0x1.1ccf385ebc8a0p+1023; 0x1.1ccf385ebc8a0p+1023; -1]%float
  /\ PrimFloat.is_nan
       (@Series_product float Binary64.doubles
          (@Series_add float Binary64.doubles
             [0x1.1ccf385ebc8a0p+1023; 0x1.1ccf385ebc8a0p+1023; -1]%float
             1%float)) = true
  /\ @CAGR float Binary64.doubles
       [0x1.1ccf385ebc8a0p+1023; 0x1.1ccf385ebc8a0p+1023; -1]%float 3
     = Ok PrimFloat.nan.
Proof.
  split; [right; right; left; reflexivity|].
  split; vm_compute; reflexivity.
Qed.



(** The first return of the example series, and the whole of it. *)
Lemma appended_returns_run :
  exists dd dd' p p' dur dur',
    @maxDrawdown float Binary64.doubles [0x1.999999999999ap-4]%float
    = Ok (dd, p, dur)
    /\ @maxDrawdown float Binary64.doubles
         ([0x1.999999999999ap-4]
          ++ [-0x1.999999999999ap-3; 0x1.999999999999ap-5])%float
       = Ok (dd', p', dur')
    /\ PrimFloat.leb dd dd' = true.
Proof.
  apply (@maxDrawdown_grows_with_appended_returns
           Binary64.sample_pow Binary64.sample_sum).
  vm_compute. reflexivity.
Defined.

(** The three components on the example series, on doubles. *)
Lemma components_run :
  exists dd count dur,
    @maxDrawdown float Binary64.doubles Binary64.example
    = Ok (dd,
          PrimFloat.div (Binary64.float_of_int count)
            (Binary64.float_of_int (len Binary64.example)),
          dur)
    /\ (0 <= dur <= count)%Z
    /\ (count <= len Binary64.example)%Z
    /\ (PrimFloat.eqb dd 0 = true <-> count = 0%Z)
    /\ (count = 0%Z <-> dur = 0%Z).
Proof.
  apply (@maxDrawdown_components_vanish_together
           Binary64.sample_pow Binary64.sample_sum Binary64.example).
  - discriminate.
  - vm_compute. reflexivity.
Defined.

(** Two returns over two periods a year: gains of a half and of a
    quarter. *)
Lemma whole_period_run :
  @CAGR float Binary64.doubles [0.5; 0.25]%float 2
  = Ok (PrimFloat.sub
          (@growth float Binary64.doubles [0.5; 0.25]%float) 1%float).
Proof.
  apply (@CAGR_over_the_whole_period
           Binary64.sample_pow Binary64.sample_sum [0.5; 0.25]%float).
  - discriminate.
  - unfold len. simpl. lia.
  - vm_compute. reflexivity.
Defined.
End Runs.
